(** * fishpi_pokemon: the pet state engine of [PetsService]

    A shallow embedding of [src/pets/pets.service.ts] together with the
    schema [schemas/pet.schema.ts] and the DTO [dto/update-pet.dto.ts].

    Modelling conventions.
    - A TypeScript [number] that holds a count or a vital is a [Z]; a [Date]
      is its [getTime()] value, a [Z] of milliseconds.  Quotients that the
      code takes before [Math.floor] are exact rationals ([Q]); the rounding
      of IEEE doubles is outside the model.
    - The Mongo collection behind [petModel] is a finite map from the
      document's [_id] to the stored [Pet]; a [PetDocument] is the pair of
      both.
    - Service methods are computations in a small state-and-exception monad
      over the collection.  [new Date()] is the extra argument [now]. *)

From Stdlib Require Import ZArith QArith Qround Lia.
From stdpp Require Import gmap strings list fin_maps sorting.

Local Open Scope Z_scope.

(** ** Schema *)

Inductive PetType := FISH | CAT.

Inductive PetStatus := ACTIVE | SLEEPING | SICK | HAPPY | HUNGRY.

#[global] Instance PetType_eq_dec : EqDecision PetType.
Proof. solve_decision. Defined.

#[global] Instance PetStatus_eq_dec : EqDecision PetStatus.
Proof. solve_decision. Defined.

(** The string value of each enum member, as written in the schema. *)
Definition PetType_value (t : PetType) : string :=
  match t with
  | FISH => "fish"
  | CAT => "cat"
  end.

Definition PetStatus_value (s : PetStatus) : string :=
  match s with
  | ACTIVE => "active"
  | SLEEPING => "sleeping"
  | SICK => "sick"
  | HAPPY => "happy"
  | HUNGRY => "hungry"
  end.

(** [Object.values(PetType)]: the members in declaration order. *)
Definition PetType_values : list string := PetType_value <$> [FISH; CAT].

(** [@IsEnum(PetType)]: the validator of [CreatePetDto.type]. *)
Definition IsEnum_PetType (s : string) : bool :=
  bool_decide (s ∈ PetType_values).

Module Pet.

Record t := mk {
  name : string;
  type : PetType;
  userId : string;
  level : Z;
  experience : Z;
  health : Z;
  hunger : Z;
  happiness : Z;
  energy : Z;
  status : PetStatus;
  lastFed : Z;
  lastPlayed : Z;
  lastSlept : Z;
  avatar : option string;
  battlesWon : Z;
  battlesLost : Z;
  is_active : bool
}.

End Pet.

(** [UpdatePetDto]: every field is optional. *)
Module UpdatePetDto.

Record t := mk {
  name : option string;
  type : option PetType;
  level : option Z;
  experience : option Z;
  health : option Z;
  hunger : option Z;
  happiness : option Z;
  energy : option Z;
  status : option PetStatus;
  avatar : option string;
  battlesWon : option Z;
  battlesLost : option Z;
  is_active : option bool;
  lastFed : option Z;
  lastPlayed : option Z;
  lastSlept : option Z
}.

End UpdatePetDto.

(** What [findByIdAndUpdate(id, dto, { new: true })] does to the matching
    document: the fields present in [dto] are overwritten, the others are
    kept. *)
Definition set_fields (dto : UpdatePetDto.t) (p : Pet.t) : Pet.t :=
  {| Pet.name := default (Pet.name p) (UpdatePetDto.name dto);
     Pet.type := default (Pet.type p) (UpdatePetDto.type dto);
     Pet.userId := Pet.userId p;
     Pet.level := default (Pet.level p) (UpdatePetDto.level dto);
     Pet.experience := default (Pet.experience p) (UpdatePetDto.experience dto);
     Pet.health := default (Pet.health p) (UpdatePetDto.health dto);
     Pet.hunger := default (Pet.hunger p) (UpdatePetDto.hunger dto);
     Pet.happiness := default (Pet.happiness p) (UpdatePetDto.happiness dto);
     Pet.energy := default (Pet.energy p) (UpdatePetDto.energy dto);
     Pet.status := default (Pet.status p) (UpdatePetDto.status dto);
     Pet.lastFed := default (Pet.lastFed p) (UpdatePetDto.lastFed dto);
     Pet.lastPlayed := default (Pet.lastPlayed p) (UpdatePetDto.lastPlayed dto);
     Pet.lastSlept := default (Pet.lastSlept p) (UpdatePetDto.lastSlept dto);
     Pet.avatar :=
       match UpdatePetDto.avatar dto with
       | Some a => Some a
       | None => Pet.avatar p
       end;
     Pet.battlesWon := default (Pet.battlesWon p) (UpdatePetDto.battlesWon dto);
     Pet.battlesLost := default (Pet.battlesLost p) (UpdatePetDto.battlesLost dto);
     Pet.is_active := default (Pet.is_active p) (UpdatePetDto.is_active dto) |}.

(** ** Numbers *)

(** [Math.floor(a / b)] for integer-valued [a] and [b]. *)
Definition floor_div (a b : Z) : Z := Qfloor (inject_Z a / inject_Z b).

(** [(now.getTime() - last.getTime()) / (1000 * 60 * 60)]. *)
Definition hoursSince (now last : Z) : Q :=
  (inject_Z (now - last) / inject_Z (1000 * 60 * 60))%Q.

(** [clamp(x, lo, hi)] of the specification; the service itself only ever
    calls [Math.min] or [Math.max]. *)
Definition clamp (x lo hi : Z) : Z := Z.max lo (Z.min hi x).

(** ** The status classifier *)

Definition calculatePetStatus (hunger health energy happiness : Z) : PetStatus :=
  if health <? 30 then SICK
  else if energy <? 20 then SLEEPING
  else if hunger <? 30 then HUNGRY
  else if (happiness >? 80) && (health >? 80) && (energy >? 60) then HAPPY
  else ACTIVE.

(** ** The service monad *)

Inductive Exception := NotFoundException (message : string).

(** A stored document: its [_id] and the [Pet] fields. *)
Abbreviation PetDocument := (string * Pet.t)%type.

Definition Service (A : Type) : Type :=
  gmap string Pet.t → Exception + (A * gmap string Pet.t).

#[global] Instance Service_ret : MRet Service := λ A a db, inr (a, db).

#[global] Instance Service_bind : MBind Service := λ A B k m db,
  match m db with
  | inl e => inl e
  | inr (a, db') => k a db'
  end.

Definition throw {A} (e : Exception) : Service A := λ _, inl e.

(** [for (const x of l) { await body(x); }] *)
Fixpoint for_of {A} (l : list A) (body : A → Service ()) : Service () :=
  match l with
  | [] => mret ()
  | x :: l' => body x ≫= λ _, for_of l' body
  end.

(** ** Queries and the generic update *)

Definition findAll : Service (list PetDocument) :=
  λ db, inr (map_to_list db, db).

Definition findByUserId (userId : string) : Service (list PetDocument) :=
  λ db, inr (filter (λ d : PetDocument,
                       Pet.userId d.2 = userId ∧ Pet.is_active d.2 = true)
                    (map_to_list db), db).

Definition findById (id : string) : Service (option Pet.t) :=
  λ db, inr (db !! id, db).

Definition update (id : string) (dto : UpdatePetDto.t) : Service (option Pet.t) :=
  λ db, inr (set_fields dto <$> db !! id, alter (set_fields dto) id db).

Definition getPetTypes : Service (list string) := mret PetType_values.

(** ** The update each action sends

    Each function below is the body of the corresponding service method
    between the not-found check and the call of [update]: it computes the
    new values from the loaded [pet] and builds the object literal. *)

Definition feedPet_update (now : Z) (pet : Pet.t) : UpdatePetDto.t :=
  let newHunger := Z.min 100 (Pet.hunger pet + 30) in
  let newHappiness := Z.min 100 (Pet.happiness pet + 10) in
  let newExperience := Pet.experience pet + 10 in
  let newLevel := floor_div newExperience 100 + 1 in
  let newStatus :=
    calculatePetStatus newHunger (Pet.health pet) (Pet.energy pet) newHappiness in
  {| UpdatePetDto.name := None;
     UpdatePetDto.type := None;
     UpdatePetDto.level := Some newLevel;
     UpdatePetDto.experience := Some newExperience;
     UpdatePetDto.health := None;
     UpdatePetDto.hunger := Some newHunger;
     UpdatePetDto.happiness := Some newHappiness;
     UpdatePetDto.energy := None;
     UpdatePetDto.status := Some newStatus;
     UpdatePetDto.avatar := None;
     UpdatePetDto.battlesWon := None;
     UpdatePetDto.battlesLost := None;
     UpdatePetDto.is_active := None;
     UpdatePetDto.lastFed := Some now;
     UpdatePetDto.lastPlayed := None;
     UpdatePetDto.lastSlept := None |}.

Definition playWithPet_update (now : Z) (pet : Pet.t) : UpdatePetDto.t :=
  let newHappiness := Z.min 100 (Pet.happiness pet + 25) in
  let newEnergy := Z.max 0 (Pet.energy pet - 20) in
  let newHunger := Z.max 0 (Pet.hunger pet - 15) in
  let newExperience := Pet.experience pet + 15 in
  let newLevel := floor_div newExperience 100 + 1 in
  let newStatus :=
    calculatePetStatus newHunger (Pet.health pet) newEnergy newHappiness in
  {| UpdatePetDto.name := None;
     UpdatePetDto.type := None;
     UpdatePetDto.level := Some newLevel;
     UpdatePetDto.experience := Some newExperience;
     UpdatePetDto.health := None;
     UpdatePetDto.hunger := Some newHunger;
     UpdatePetDto.happiness := Some newHappiness;
     UpdatePetDto.energy := Some newEnergy;
     UpdatePetDto.status := Some newStatus;
     UpdatePetDto.avatar := None;
     UpdatePetDto.battlesWon := None;
     UpdatePetDto.battlesLost := None;
     UpdatePetDto.is_active := None;
     UpdatePetDto.lastFed := None;
     UpdatePetDto.lastPlayed := Some now;
     UpdatePetDto.lastSlept := None |}.

Definition sleepPet_update (now : Z) (pet : Pet.t) : UpdatePetDto.t :=
  let newEnergy := Z.min 100 (Pet.energy pet + 40) in
  let newHealth := Z.min 100 (Pet.health pet + 10) in
  let newStatus := if newEnergy >? 80 then ACTIVE else SLEEPING in
  {| UpdatePetDto.name := None;
     UpdatePetDto.type := None;
     UpdatePetDto.level := None;
     UpdatePetDto.experience := None;
     UpdatePetDto.health := Some newHealth;
     UpdatePetDto.hunger := None;
     UpdatePetDto.happiness := None;
     UpdatePetDto.energy := Some newEnergy;
     UpdatePetDto.status := Some newStatus;
     UpdatePetDto.avatar := None;
     UpdatePetDto.battlesWon := None;
     UpdatePetDto.battlesLost := None;
     UpdatePetDto.is_active := None;
     UpdatePetDto.lastFed := None;
     UpdatePetDto.lastPlayed := None;
     UpdatePetDto.lastSlept := Some now |}.

Definition healPet_update (pet : Pet.t) : UpdatePetDto.t :=
  let newHealth := Z.min 100 (Pet.health pet + 30) in
  let newStatus :=
    calculatePetStatus (Pet.hunger pet) newHealth (Pet.energy pet)
                       (Pet.happiness pet) in
  {| UpdatePetDto.name := None;
     UpdatePetDto.type := None;
     UpdatePetDto.level := None;
     UpdatePetDto.experience := None;
     UpdatePetDto.health := Some newHealth;
     UpdatePetDto.hunger := None;
     UpdatePetDto.happiness := None;
     UpdatePetDto.energy := None;
     UpdatePetDto.status := Some newStatus;
     UpdatePetDto.avatar := None;
     UpdatePetDto.battlesWon := None;
     UpdatePetDto.battlesLost := None;
     UpdatePetDto.is_active := None;
     UpdatePetDto.lastFed := None;
     UpdatePetDto.lastPlayed := None;
     UpdatePetDto.lastSlept := None |}.

(** The body of the loop of [updatePetStatsOverTime] for one [pet]. *)
Definition updatePetStatsOverTime_update (now : Z) (pet : Pet.t) : UpdatePetDto.t :=
  let hoursSinceLastFed := hoursSince now (Pet.lastFed pet) in
  let hoursSinceLastPlay := hoursSince now (Pet.lastPlayed pet) in
  let hoursSinceLastSleep := hoursSince now (Pet.lastSlept pet) in
  let newHunger :=
    Z.max 0 (Pet.hunger pet - Qfloor (hoursSinceLastFed * 2)) in
  let newHappiness :=
    Z.max 0 (Pet.happiness pet - Qfloor (hoursSinceLastPlay * (3 # 2))) in
  let newEnergy :=
    Z.max 0 (Pet.energy pet - Qfloor (hoursSinceLastSleep * 1)) in
  let newStatus :=
    calculatePetStatus newHunger (Pet.health pet) newEnergy newHappiness in
  {| UpdatePetDto.name := None;
     UpdatePetDto.type := None;
     UpdatePetDto.level := None;
     UpdatePetDto.experience := None;
     UpdatePetDto.health := None;
     UpdatePetDto.hunger := Some newHunger;
     UpdatePetDto.happiness := Some newHappiness;
     UpdatePetDto.energy := Some newEnergy;
     UpdatePetDto.status := Some newStatus;
     UpdatePetDto.avatar := None;
     UpdatePetDto.battlesWon := None;
     UpdatePetDto.battlesLost := None;
     UpdatePetDto.is_active := None;
     UpdatePetDto.lastFed := None;
     UpdatePetDto.lastPlayed := None;
     UpdatePetDto.lastSlept := None |}.

(** ** Service methods *)

Definition feedPet (now : Z) (id : string) : Service (option Pet.t) :=
  pet ← findById id;
  match pet with
  | None => throw (NotFoundException "Pet not found")
  | Some pet => update id (feedPet_update now pet)
  end.

Definition playWithPet (now : Z) (id : string) : Service (option Pet.t) :=
  pet ← findById id;
  match pet with
  | None => throw (NotFoundException "Pet not found")
  | Some pet => update id (playWithPet_update now pet)
  end.

Definition sleepPet (now : Z) (id : string) : Service (option Pet.t) :=
  pet ← findById id;
  match pet with
  | None => throw (NotFoundException "Pet not found")
  | Some pet => update id (sleepPet_update now pet)
  end.

Definition healPet (id : string) : Service (option Pet.t) :=
  pet ← findById id;
  match pet with
  | None => throw (NotFoundException "Pet not found")
  | Some pet => update id (healPet_update pet)
  end.

Definition updatePetStatsOverTime (now : Z) : Service () :=
  pets ← findAll;
  for_of pets (λ pet : PetDocument,
    _ ← update pet.1 (updatePetStatsOverTime_update now pet.2);
    mret ()).

(** ** The engine's transitions

    [feed(pet, now)], [play(pet, now)], ... of the specification: the
    document a service method stores and returns for a pet it has found. *)

Definition feed (now : Z) (pet : Pet.t) : Pet.t :=
  set_fields (feedPet_update now pet) pet.

Definition play (now : Z) (pet : Pet.t) : Pet.t :=
  set_fields (playWithPet_update now pet) pet.

Definition sleep (now : Z) (pet : Pet.t) : Pet.t :=
  set_fields (sleepPet_update now pet) pet.

Definition heal (now : Z) (pet : Pet.t) : Pet.t :=
  set_fields (healPet_update pet) pet.

Definition decay (now : Z) (pet : Pet.t) : Pet.t :=
  set_fields (updatePetStatsOverTime_update now pet) pet.

Inductive Transition := Feed | Play | Sleep | Heal | Decay.

#[global] Instance Transition_eq_dec : EqDecision Transition.
Proof. solve_decision. Defined.

Definition transition (t : Transition) : Z → Pet.t → Pet.t :=
  match t with
  | Feed => feed
  | Play => play
  | Sleep => sleep
  | Heal => heal
  | Decay => decay
  end.

(** ** Data-model predicates *)

(** The four vitals lie in [[0, 100]]. *)
Definition valid_vitals (p : Pet.t) : Prop :=
  0 ≤ Pet.health p ≤ 100 ∧ 0 ≤ Pet.hunger p ≤ 100 ∧
  0 ≤ Pet.happiness p ≤ 100 ∧ 0 ≤ Pet.energy p ≤ 100.

(** No vital is negative. *)
Definition vitals_nonneg (p : Pet.t) : Prop :=
  0 ≤ Pet.health p ∧ 0 ≤ Pet.hunger p ∧
  0 ≤ Pet.happiness p ∧ 0 ≤ Pet.energy p.

(** No last-action timestamp is later than [now]. *)
Definition not_later (now : Z) (p : Pet.t) : Prop :=
  Pet.lastFed p ≤ now ∧ Pet.lastPlayed p ≤ now ∧ Pet.lastSlept p ≤ now.

(** What [Math.floor] takes off each vital in [updatePetStatsOverTime]. *)
Definition hungerLoss (now : Z) (p : Pet.t) : Z :=
  Qfloor (hoursSince now (Pet.lastFed p) * 2).

Definition happinessLoss (now : Z) (p : Pet.t) : Z :=
  Qfloor (hoursSince now (Pet.lastPlayed p) * (3 # 2)).

Definition energyLoss (now : Z) (p : Pet.t) : Z :=
  Qfloor (hoursSince now (Pet.lastSlept p) * 1).

(** A second subtraction of [d] changes nothing: [d] is zero, or it is
    positive and has already taken [v] down to 0. *)
Definition settled (v d : Z) : Prop := d = 0 ∨ (0 < d ∧ v ≤ d).

(** ** Records to compute with *)

(** A stored pet with the given vitals and experience, its level derived
    from the experience, never fed, played with or put to sleep since the
    time [0] of its creation. *)
Definition sample (hunger health energy happiness experience : Z) : Pet.t :=
  {| Pet.name := "pet"; Pet.type := FISH; Pet.userId := "u1";
     Pet.level := experience / 100 + 1; Pet.experience := experience;
     Pet.health := health; Pet.hunger := hunger;
     Pet.happiness := happiness; Pet.energy := energy;
     Pet.status := calculatePetStatus hunger health energy happiness;
     Pet.lastFed := 0; Pet.lastPlayed := 0; Pet.lastSlept := 0;
     Pet.avatar := None; Pet.battlesWon := 0; Pet.battlesLost := 0;
     Pet.is_active := true |}.

(** A pet whose [lastFed] lies one millisecond after the time [0] at which
    decay runs. *)
Definition fed_in_future : Pet.t :=
  {| Pet.name := "pet"; Pet.type := CAT; Pet.userId := "u1";
     Pet.level := 1; Pet.experience := 0;
     Pet.health := 100; Pet.hunger := 100; Pet.happiness := 100;
     Pet.energy := 100; Pet.status := ACTIVE;
     Pet.lastFed := 1; Pet.lastPlayed := 0; Pet.lastSlept := 0;
     Pet.avatar := None; Pet.battlesWon := 0; Pet.battlesLost := 0;
     Pet.is_active := true |}.

(** A pet with full hunger whose [lastFed] lies one hour after the time [0]
    at which decay runs. *)
Definition fed_hour_ahead : Pet.t :=
  {| Pet.name := "pet"; Pet.type := FISH; Pet.userId := "u1";
     Pet.level := 1; Pet.experience := 0;
     Pet.health := 100; Pet.hunger := 100; Pet.happiness := 100;
     Pet.energy := 100; Pet.status := ACTIVE;
     Pet.lastFed := 3600000; Pet.lastPlayed := 0; Pet.lastSlept := 0;
     Pet.avatar := None; Pet.battlesWon := 0; Pet.battlesLost := 0;
     Pet.is_active := true |}.

(** A soft-deleted pet with full hunger, last fed at time [0]. *)
Definition retired : Pet.t :=
  {| Pet.name := "pet"; Pet.type := CAT; Pet.userId := "u1";
     Pet.level := 1; Pet.experience := 0;
     Pet.health := 100; Pet.hunger := 100; Pet.happiness := 100;
     Pet.energy := 100; Pet.status := ACTIVE;
     Pet.lastFed := 0; Pet.lastPlayed := 0; Pet.lastSlept := 0;
     Pet.avatar := None; Pet.battlesWon := 0; Pet.battlesLost := 0;
     Pet.is_active := false |}.

(** The update the README gives as its example of PATCH /pets/:id, without
    the name: [{ level: 2 }]. *)
Definition level_2 : UpdatePetDto.t :=
  {| UpdatePetDto.name := None;
     UpdatePetDto.type := None;
     UpdatePetDto.level := Some 2;
     UpdatePetDto.experience := None;
     UpdatePetDto.health := None;
     UpdatePetDto.hunger := None;
     UpdatePetDto.happiness := None;
     UpdatePetDto.energy := None;
     UpdatePetDto.status := None;
     UpdatePetDto.avatar := None;
     UpdatePetDto.battlesWon := None;
     UpdatePetDto.battlesLost := None;
     UpdatePetDto.is_active := None;
     UpdatePetDto.lastFed := None;
     UpdatePetDto.lastPlayed := None;
     UpdatePetDto.lastSlept := None |}.

(** A pet with full vitals and no experience after that update: level 2,
    experience 0. *)
Definition promoted : Pet.t := set_fields level_2 (sample 100 100 100 100 0).

(** ** Proof automation *)

(** Case analysis on every comparison of the classifier. *)
Ltac classify :=
  unfold calculatePetStatus;
  repeat match goal with
         | |- context [?a <? ?b] => destruct (Z.ltb_spec a b)
         | |- context [?a >? ?b] =>
             rewrite (Z.gtb_ltb a b); destruct (Z.ltb_spec b a)
         end;
  cbn; try reflexivity; try lia.

(** * The rest of the pets module *)

(** ** The remaining methods of [PetsService] *)

(** [CreatePetDto]: what a client sends to create a pet. *)
Module CreatePetDto.

Record t := mk {
  name : string;
  type : PetType;
  userId : string;
  avatar : option string
}.

End CreatePetDto.

(** [new this.petModel(createPetDto)]: the fields of the DTO and, for the
    others, the defaults of the schema.  Each [Date.now] default reads the
    clock on its own: [fedAt], [playedAt] and [sleptAt]. *)
Definition new_Pet (dto : CreatePetDto.t) (fedAt playedAt sleptAt : Z) : Pet.t :=
  {| Pet.name := CreatePetDto.name dto;
     Pet.type := CreatePetDto.type dto;
     Pet.userId := CreatePetDto.userId dto;
     Pet.level := 1;
     Pet.experience := 0;
     Pet.health := 100;
     Pet.hunger := 100;
     Pet.happiness := 100;
     Pet.energy := 100;
     Pet.status := ACTIVE;
     Pet.lastFed := fedAt;
     Pet.lastPlayed := playedAt;
     Pet.lastSlept := sleptAt;
     Pet.avatar := CreatePetDto.avatar dto;
     Pet.battlesWon := 0;
     Pet.battlesLost := 0;
     Pet.is_active := true |}.

(** [create]: [pet.save()] stores the new document under the [_id] that
    Mongoose has drawn for it, here the argument [id]. *)
Definition create (id : string) (fedAt playedAt sleptAt : Z)
    (createPetDto : CreatePetDto.t) : Service Pet.t :=
  λ db, inr (new_Pet createPetDto fedAt playedAt sleptAt,
             <[id := new_Pet createPetDto fedAt playedAt sleptAt]> db).

(** The method [delete] of the service ([findByIdAndDelete]); in a module of
    its own, the bare name being the map operation. *)
Module PetsService.

Definition delete (id : string) : Service (option Pet.t) :=
  λ db, inr (db !! id, base.delete id db).

End PetsService.

(** The object [getPetStats] returns. *)
Module PetStats.

Record t := mk {
  id : string;
  name : string;
  type : PetType;
  level : Z;
  experience : Z;
  health : Z;
  hunger : Z;
  happiness : Z;
  energy : Z;
  status : PetStatus;
  battlesWon : Z;
  battlesLost : Z;
  lastFed : Z;
  lastPlayed : Z;
  lastSlept : Z
}.

End PetStats.

Definition getPetStats (id : string) : Service PetStats.t :=
  pet ← findById id;
  match pet with
  | None => throw (NotFoundException "Pet not found")
  | Some pet =>
      mret {| PetStats.id := id;
              PetStats.name := Pet.name pet;
              PetStats.type := Pet.type pet;
              PetStats.level := Pet.level pet;
              PetStats.experience := Pet.experience pet;
              PetStats.health := Pet.health pet;
              PetStats.hunger := Pet.hunger pet;
              PetStats.happiness := Pet.happiness pet;
              PetStats.energy := Pet.energy pet;
              PetStats.status := Pet.status pet;
              PetStats.battlesWon := Pet.battlesWon pet;
              PetStats.battlesLost := Pet.battlesLost pet;
              PetStats.lastFed := Pet.lastFed pet;
              PetStats.lastPlayed := Pet.lastPlayed pet;
              PetStats.lastSlept := Pet.lastSlept pet |}
  end.

(** ** Ids *)

(** The string form of an ObjectId, under which Mongoose keys a document and
    hands out its [_id]: 24 hexadecimal digits in lower case.  The methods
    that take an id are given one of this form; another string Mongoose
    refuses before it looks anything up. *)
Definition is_hex_digit (c : Ascii.ascii) : bool :=
  let n := Ascii.nat_of_ascii c in
  (((48 <=? n) && (n <=? 57)) || ((97 <=? n) && (n <=? 102)))%nat.

Fixpoint all_hex (s : string) : bool :=
  match s with
  | EmptyString => true
  | String c s' => is_hex_digit c && all_hex s'
  end.

Definition isObjectId (s : string) : bool :=
  (String.length s =? 24)%nat && all_hex s.

(** ** The validators of [UpdatePetDto] *)

(** [@IsOptional() @Min(n)] and [@IsOptional() @Max(n)] on a number. *)
Definition IsOptional_Min (n : Z) (x : option Z) : bool :=
  match x with
  | None => true
  | Some v => bool_decide (n ≤ v)
  end.

Definition IsOptional_Max (n : Z) (x : option Z) : bool :=
  match x with
  | None => true
  | Some v => bool_decide (v ≤ n)
  end.

(** The numeric constraints [class-validator] checks on an [UpdatePetDto];
    the other decorators ([@IsString], [@IsEnum], [@IsBoolean], [@IsDate])
    are the types of the fields. *)
Definition validate_UpdatePetDto (dto : UpdatePetDto.t) : bool :=
  IsOptional_Min 1 (UpdatePetDto.level dto) &&
  IsOptional_Min 0 (UpdatePetDto.experience dto) &&
  IsOptional_Min 0 (UpdatePetDto.health dto) &&
  IsOptional_Max 100 (UpdatePetDto.health dto) &&
  IsOptional_Min 0 (UpdatePetDto.hunger dto) &&
  IsOptional_Max 100 (UpdatePetDto.hunger dto) &&
  IsOptional_Min 0 (UpdatePetDto.happiness dto) &&
  IsOptional_Max 100 (UpdatePetDto.happiness dto) &&
  IsOptional_Min 0 (UpdatePetDto.energy dto) &&
  IsOptional_Max 100 (UpdatePetDto.energy dto) &&
  IsOptional_Min 0 (UpdatePetDto.battlesWon dto) &&
  IsOptional_Min 0 (UpdatePetDto.battlesLost dto).

(** ** A pet's life: creation and a run of transitions *)

(** The transitions of [events], each with the time it happens at, applied
    in order. *)
Definition run (pet : Pet.t) (events : list (Transition * Z)) : Pet.t :=
  foldl (λ p e, transition e.1 e.2 p) pet events.

(** The clock never runs backwards: no event is earlier than the one before
    it, nor than [since]. *)
Fixpoint chronological (since : Z) (events : list (Transition * Z)) : Prop :=
  match events with
  | [] => True
  | e :: events' => since ≤ e.2 ∧ chronological e.2 events'
  end.

(** The time of the last event, [since] if there is none. *)
Definition last_time (since : Z) (events : list (Transition * Z)) : Z :=
  foldl (λ _ e, e.2) since events.

(** How many events of [events] are the transition [t]. *)
Definition count (t : Transition) (events : list (Transition * Z)) : Z :=
  Z.of_nat (length (filter (λ e, e.1 = t) events)).

(** What a chronological run keeps: the vitals in range, no timestamp later
    than the clock, and the level derived from the experience. *)
Definition sound (since : Z) (p : Pet.t) : Prop :=
  valid_vitals p ∧ not_later since p ∧
  Pet.level p = Pet.experience p / 100 + 1.

(** ** The routes of [PetsController] *)

Module PetsController.

Inductive HttpMethod := GET | POST | PATCH.

(** A segment of a route path: a literal, or a parameter [:name]. *)
Inductive Segment := Lit (s : string) | Param (name : string).

(** The methods of the controller. *)
Inductive Handler :=
  | create | findAll | findByUserId | findOne | getStats | update
  | feed | play | sleep | heal | getTypes.

#[global] Instance HttpMethod_eq_dec : EqDecision HttpMethod.
Proof. solve_decision. Defined.

#[global] Instance Handler_eq_dec : EqDecision Handler.
Proof. solve_decision. Defined.

(** The decorators of the class, in the order of the methods: the order
    in which the routes are registered and tried. *)
Definition routes : list (HttpMethod * list Segment * Handler) :=
  [ (POST, [], create);
    (GET, [], findAll);
    (GET, [Lit "user"; Param "userId"], findByUserId);
    (GET, [Param "id"], findOne);
    (GET, [Param "id"; Lit "stats"], getStats);
    (PATCH, [Param "id"], update);
    (POST, [Param "id"; Lit "feed"], feed);
    (POST, [Param "id"; Lit "play"], play);
    (POST, [Param "id"; Lit "sleep"], sleep);
    (POST, [Param "id"; Lit "heal"], heal);
    (GET, [Lit "types"], getTypes) ].

(** Route paths are matched without regard to case, the default of the
    Express router. *)
Definition lower_ascii (c : Ascii.ascii) : Ascii.ascii :=
  let n := Ascii.nat_of_ascii c in
  if ((65 <=? n) && (n <=? 90))%nat then Ascii.ascii_of_nat (n + 32) else c.

Fixpoint lower (s : string) : string :=
  match s with
  | EmptyString => EmptyString
  | String c s' => String (lower_ascii c) (lower s')
  end.

(** A path (its decoded segments after [/pets]) against a route path: a
    literal matches itself, a parameter any segment that is not empty, which
    it binds. *)
Fixpoint match_path (pattern : list Segment) (path : list string)
    : option (list (string * string)) :=
  match pattern, path with
  | [], [] => Some []
  | Lit s :: pattern', x :: path' =>
      if decide (lower s = lower x) then match_path pattern' path' else None
  | Param name :: pattern', x :: path' =>
      if decide (x = "") then None
      else cons (name, x) <$> match_path pattern' path'
  | _, _ => None
  end.

(** The first registered route that matches handles the request. *)
Fixpoint first_match (rs : list (HttpMethod * list Segment * Handler))
    (m : HttpMethod) (path : list string)
    : option (Handler * list (string * string)) :=
  match rs with
  | [] => None
  | (m', pattern, h) :: rs' =>
      if decide (m' = m) then
        match match_path pattern path with
        | Some params => Some (h, params)
        | None => first_match rs' m path
        end
      else first_match rs' m path
  end.

Definition dispatch (m : HttpMethod) (path : list string)
    : option (Handler * list (string * string)) :=
  first_match routes m path.

End PetsController.

(** * The logging interceptor *)

Module LoggingInterceptor.

(** A JSON value, as a parsed request body holds them. *)
#[local] Unset Elimination Schemes.

Inductive JSON :=
  | JNull
  | JBool (b : bool)
  | JNumber (q : Q)
  | JString (s : string)
  | JArray (items : list JSON)
  | JObject (fields : list (string * JSON)).

#[local] Set Elimination Schemes.

(** What [if (v)] takes for true: everything but [null], [false], zero and
    the empty string. *)
Definition truthy (v : JSON) : bool :=
  match v with
  | JNull => false
  | JBool b => b
  | JNumber q => negb (Qnum q =? 0)
  | JString s => negb (bool_decide (s = ""))
  | JArray _ | JObject _ => true
  end.

Definition sensitiveFields : list string :=
  ["password"; "token"; "secret"; "authorization"].

(** [sanitizeRequestBody]: [None] is a missing body; the copy [{ ...body }]
    is the map itself, whose fields the loop then overwrites one by one. *)
Definition sanitizeRequestBody (body : option (gmap string JSON))
    : option (gmap string JSON) :=
  match body with
  | None => None
  | Some body =>
      Some (foldl (λ (sanitized : gmap string JSON) field,
                     match sanitized !! field with
                     | Some v =>
                         if truthy v then <[field := JString "***"]> sanitized
                         else sanitized
                     | None => sanitized
                     end)
                  body sensitiveFields)
  end.

(** What the loop makes of the value of a sensitive field. *)
Definition masked (v : JSON) : JSON :=
  if truthy v then JString "***" else v.

End LoggingInterceptor.

(** * The users module *)

Module User.

(** A user object.  [password] is [None] once [delete userObj.password] has
    removed the property; a stored document always has it. *)
Record t := mk {
  username : string;
  email : string;
  password : option string;
  level : Z;
  experience : Z;
  coins : Z;
  isActive : bool;
  lastLoginAt : option Z;
  createdAt : Z;
  avatar : option string
}.

End User.

(** [Partial<User>]: the argument of [update]. *)
Module PartialUser.

Record t := mk {
  username : option string;
  email : option string;
  password : option string;
  level : option Z;
  experience : option Z;
  coins : option Z;
  isActive : option bool;
  lastLoginAt : option Z;
  createdAt : option Z;
  avatar : option string
}.

End PartialUser.

(** The argument of [create].  The interface [RegisterDto] declares
    [username], [email] and [password]; it is not a validated class, so the
    object is the request body as it came, and may carry the other
    properties of the schema as well, which [{ ...userData }] copies. *)
Module RegisterDto.

Record t := mk {
  username : string;
  email : string;
  password : string;
  level : option Z;
  experience : option Z;
  coins : option Z;
  isActive : option bool;
  lastLoginAt : option Z;
  createdAt : option Z;
  avatar : option string
}.

End RegisterDto.

Module LoginDto.

Record t := mk {
  email : string;
  password : string
}.

End LoginDto.

Module UsersService.

(** What a method can throw: the service's own [UnauthorizedException], and
    the errors of the libraries it calls (the duplicate-key error of a
    unique index, bcrypt's complaint about a missing hash). *)
Inductive Exception :=
  | UnauthorizedException (message : string)
  | Error (message : string).

Abbreviation UserDocument := (string * User.t)%type.

Definition Service (A : Type) : Type :=
  gmap string User.t → Exception + (A * gmap string User.t).

#[global] Instance Service_ret : MRet Service := λ A a db, inr (a, db).

#[global] Instance Service_bind : MBind Service := λ A B k m db,
  match m db with
  | inl e => inl e
  | inr (a, db') => k a db'
  end.

Definition throw {A} (e : Exception) : Service A := λ _, inl e.

(** [userModel.findOne(filter)]: the first stored document that passes the
    filter. *)
Definition findOne (filter : User.t → bool) (db : gmap string User.t)
    : option UserDocument :=
  snd <$> list_find (λ d : UserDocument, filter d.2 = true) (map_to_list db).

(** [user.toObject()] followed by [delete userObj.password]. *)
Definition without_password (user : User.t) : User.t :=
  {| User.username := User.username user;
     User.email := User.email user;
     User.password := None;
     User.level := User.level user;
     User.experience := User.experience user;
     User.coins := User.coins user;
     User.isActive := User.isActive user;
     User.lastLoginAt := User.lastLoginAt user;
     User.createdAt := User.createdAt user;
     User.avatar := User.avatar user |}.

(** The fields [findByIdAndUpdate] overwrites. *)
Definition set_fields (updateData : PartialUser.t) (u : User.t) : User.t :=
  {| User.username := default (User.username u) (PartialUser.username updateData);
     User.email := default (User.email u) (PartialUser.email updateData);
     User.password :=
       match PartialUser.password updateData with
       | Some pw => Some pw
       | None => User.password u
       end;
     User.level := default (User.level u) (PartialUser.level updateData);
     User.experience :=
       default (User.experience u) (PartialUser.experience updateData);
     User.coins := default (User.coins u) (PartialUser.coins updateData);
     User.isActive := default (User.isActive u) (PartialUser.isActive updateData);
     User.lastLoginAt :=
       match PartialUser.lastLoginAt updateData with
       | Some t => Some t
       | None => User.lastLoginAt u
       end;
     User.createdAt := default (User.createdAt u) (PartialUser.createdAt updateData);
     User.avatar :=
       match PartialUser.avatar updateData with
       | Some a => Some a
       | None => User.avatar u
       end |}.

(** The unique indexes of the schema ([unique: true] on [username] and on
    [email]): another document than [id] already has the value. *)
Definition taken (field : User.t → string) (value : option string)
    (id : string) (db : gmap string User.t) : bool :=
  match value with
  | None => false
  | Some v =>
      bool_decide (Exists (λ d : UserDocument, d.1 ≠ id ∧ field d.2 = v)
                          (map_to_list db))
  end.

(** No two stored users share the value of [field]. *)
Definition unique (field : User.t → string) (db : gmap string User.t) : Prop :=
  ∀ i j u v, db !! i = Some u → db !! j = Some v → field u = field v → i = j.

Definition findByEmail (email : string) : Service (option User.t) :=
  λ db, inr (snd <$> findOne (λ u, bool_decide (User.email u = email)) db, db).

Definition findByUsername (username : string) : Service (option User.t) :=
  λ db, inr (snd <$> findOne (λ u, bool_decide (User.username u = username)) db,
             db).

Definition findById (id : string) : Service (option User.t) :=
  λ db, inr (without_password <$> db !! id, db).

Definition findAll : Service (list User.t) :=
  λ db, inr (without_password <$> (map_to_list db).*2, db).

Definition updateLastLogin (now : Z) (id : string) : Service () :=
  λ db, inr ((), alter (λ u,
    {| User.username := User.username u;
       User.email := User.email u;
       User.password := User.password u;
       User.level := User.level u;
       User.experience := User.experience u;
       User.coins := User.coins u;
       User.isActive := User.isActive u;
       User.lastLoginAt := Some now;
       User.createdAt := User.createdAt u;
       User.avatar := User.avatar u |}) id db).

(** [new this.userModel({ ...userData, password })]: the properties of
    [userData] with the password replaced, and the defaults of the schema for
    the properties [userData] does not carry. *)
Definition new_userModel (now : Z) (userData : RegisterDto.t)
    (password : string) : User.t :=
  {| User.username := RegisterDto.username userData;
     User.email := RegisterDto.email userData;
     User.password := Some password;
     User.level := default 1 (RegisterDto.level userData);
     User.experience := default 0 (RegisterDto.experience userData);
     User.coins := default 1000 (RegisterDto.coins userData);
     User.isActive := default true (RegisterDto.isActive userData);
     User.lastLoginAt := RegisterDto.lastLoginAt userData;
     User.createdAt := default now (RegisterDto.createdAt userData);
     User.avatar := RegisterDto.avatar userData |}.

(** The validators of the schema ([required: true] on [username], [email]
    and [password]): a required string is present and not empty. *)
Definition required (user : User.t) : bool :=
  negb (bool_decide (User.username user = ""))
  && negb (bool_decide (User.email user = ""))
  && match User.password user with
     | Some pw => negb (bool_decide (pw = ""))
     | None => false
     end.

Section Bcrypt.

(** [bcrypt.hash(·, 10)] and [bcrypt.compare]. *)
Context (hash : string → string) (compare : string → string → bool).

(** [create]: [id] is the [_id] of the new document, [now] the clock read by
    the default of [createdAt].  [save] validates the document, then inserts
    it, which an [_id] that is already stored makes fail. *)
Definition create (id : string) (now : Z) (userData : RegisterDto.t)
    : Service User.t :=
  existingUserByEmail ← findByEmail (RegisterDto.email userData);
  match existingUserByEmail with
  | Some _ => throw (UnauthorizedException "Email already exists")
  | None =>
      existingUserByUsername ← findByUsername (RegisterDto.username userData);
      match existingUserByUsername with
      | Some _ => throw (UnauthorizedException "Username already exists")
      | None =>
          let hashedPassword := hash (RegisterDto.password userData) in
          let user := new_userModel now userData hashedPassword in
          if negb (required user)
          then throw (Error "User validation failed")
          else
            λ db,
              match db !! id with
              | Some _ => inl (Error "E11000 duplicate key error")
              | None => inr (user, <[id := user]> db)
              end
      end
  end.

Definition login (now : Z) (loginData : LoginDto.t) : Service User.t :=
  λ db,
    match findOne (λ u, bool_decide (User.email u = LoginDto.email loginData)) db
    with
    | None => inl (UnauthorizedException "Invalid credentials")
    | Some (id, user) =>
        if negb (User.isActive user)
        then inl (UnauthorizedException "Invalid credentials")
        else
          match User.password user with
          | None => inl (Error "data and hash arguments required")
          | Some stored =>
              if negb (compare (LoginDto.password loginData) stored)
              then inl (UnauthorizedException "Invalid credentials")
              else (_ ← updateLastLogin now id; mret (without_password user)) db
          end
    end.

(** [update]: a password that counts as true (a non-empty string) is hashed
    first; the unique indexes refuse a username or email another document
    has. *)
Definition update (id : string) (updateData : PartialUser.t)
    : Service (option User.t) :=
  let updateData :=
    match PartialUser.password updateData with
    | Some pw =>
        if bool_decide (pw = "") then updateData
        else
          {| PartialUser.username := PartialUser.username updateData;
             PartialUser.email := PartialUser.email updateData;
             PartialUser.password := Some (hash pw);
             PartialUser.level := PartialUser.level updateData;
             PartialUser.experience := PartialUser.experience updateData;
             PartialUser.coins := PartialUser.coins updateData;
             PartialUser.isActive := PartialUser.isActive updateData;
             PartialUser.lastLoginAt := PartialUser.lastLoginAt updateData;
             PartialUser.createdAt := PartialUser.createdAt updateData;
             PartialUser.avatar := PartialUser.avatar updateData |}
    | None => updateData
    end in
  λ db,
    match db !! id with
    | None => inr (None, db)
    | Some u =>
        if taken User.username (PartialUser.username updateData) id db
           || taken User.email (PartialUser.email updateData) id db
        then inl (Error "E11000 duplicate key error")
        else inr (Some (without_password (set_fields updateData u)),
                  <[id := set_fields updateData u]> db)
    end.

Definition addExperience (id : string) (experience : Z)
    : Service (option User.t) :=
  user ← findById id;
  match user with
  | None => mret None
  | Some user =>
      let newExperience := User.experience user + experience in
      let newLevel := floor_div newExperience 100 + 1 in
      update id
        {| PartialUser.username := None;
           PartialUser.email := None;
           PartialUser.password := None;
           PartialUser.level := Some newLevel;
           PartialUser.experience := Some newExperience;
           PartialUser.coins := None;
           PartialUser.isActive := None;
           PartialUser.lastLoginAt := None;
           PartialUser.createdAt := None;
           PartialUser.avatar := None |}
  end.

Definition addCoins (id : string) (coins : Z) : Service (option User.t) :=
  user ← findById id;
  match user with
  | None => mret None
  | Some user =>
      update id
        {| PartialUser.username := None;
           PartialUser.email := None;
           PartialUser.password := None;
           PartialUser.level := None;
           PartialUser.experience := None;
           PartialUser.coins := Some (Z.max 0 (User.coins user + coins));
           PartialUser.isActive := None;
           PartialUser.lastLoginAt := None;
           PartialUser.createdAt := None;
           PartialUser.avatar := None |}
  end.

End Bcrypt.

End UsersService.

(** ** Users to compute with *)

(** A stand-in for bcrypt with a fixed salt: the hash is the password behind
    a prefix, and comparing recomputes it. *)
Definition sample_hash (pw : string) : string := String.append "$2b$10$" pw.

Definition sample_compare (pw stored : string) : bool :=
  bool_decide (stored = sample_hash pw).

(** A registered user with 10 coins. *)
Definition alice : User.t :=
  {| User.username := "alice"; User.email := "alice@example.org";
     User.password := Some (sample_hash "secret");
     User.level := 1; User.experience := 0; User.coins := 10;
     User.isActive := true; User.lastLoginAt := None; User.createdAt := 0;
     User.avatar := None |}.

(** * The logs module *)

Module Log.

(** A stored log: the fields of the schema and the two timestamps that
    [timestamps: true] adds. *)
Record t := mk {
  userId : string;
  endpoint : string;
  method : string;
  statusCode : Z;
  ip : string;
  userAgent : string;
  requestBody : option (gmap string LoggingInterceptor.JSON);
  responseTime : option Z;
  errorMessage : option string;
  createdAt : Z;
  updatedAt : Z
}.

End Log.

Module LogsService.

(** [a] is not older than [b]: the order of [sort({ createdAt: -1 })]. *)
Definition newer (a b : Log.t) : Prop := Log.createdAt b ≤ Log.createdAt a.

#[global] Instance newer_dec a b : Decision (newer a b).
Proof. unfold newer. apply _. Defined.

#[global] Instance newer_trans : Transitive newer.
Proof. intros a b c. unfold newer. lia. Qed.

#[global] Instance newer_total : Total newer.
Proof. intros a b. unfold newer. lia. Qed.

(** [logModel.find(filter).sort({ createdAt: -1 })]: the stored logs that
    pass the filter, newest first. *)
Definition find_sorted (filter : Log.t → bool) (db : gmap string Log.t)
    : list Log.t :=
  merge_sort newer
    (List.filter filter (map_to_list db).*2).

Definition findAll (db : gmap string Log.t) : list Log.t :=
  find_sorted (λ _, true) db.

Definition findByUserId (userId : string) (db : gmap string Log.t) : list Log.t :=
  find_sorted (λ l, bool_decide (Log.userId l = userId)) db.

(** The filter [{ createdAt: { $gte: startDate, $lte: endDate } }]. *)
Definition findByDateRange (startDate endDate : Z) (db : gmap string Log.t)
    : list Log.t :=
  find_sorted (λ l, bool_decide (startDate ≤ Log.createdAt l)
                    && bool_decide (Log.createdAt l ≤ endDate)) db.

End LogsService.

(** A stored log to compute with. *)
Definition log1 : Log.t :=
  Log.mk "u1" "/pets" "GET" 200 "::1" "curl" None None None 7 7.

(** * Properties *)

(** ** Arithmetic of the model *)

Lemma Qfloor_scaled (a n : Z) (b d : positive) :
  Qfloor (inject_Z a / inject_Z (Z.pos b) * (n # d)) = (a * n) / Z.pos (b * d).
Proof.
  unfold Qfloor, Qdiv, Qmult, Qinv, inject_Z; simpl.
  now rewrite Z.mul_1_r.
Qed.

Lemma floor_div_100 (a : Z) : floor_div a 100 = a / 100.
Proof.
  unfold floor_div, Qfloor, Qdiv, Qmult, Qinv, inject_Z; simpl.
  now rewrite Z.mul_1_r.
Qed.

(** [Math.floor(hours * 2)] loses two points per hour, one every 30 min. *)
Lemma floor_hours_2 (now last : Z) :
  Qfloor (hoursSince now last * 2) = (now - last) / 1800000.
Proof.
  unfold hoursSince.
  change (1000 * 60 * 60) with (Z.pos 3600000).
  change 2%Q with (2 # 1).
  rewrite Qfloor_scaled.
  change (Z.pos (3600000 * 1)) with (1800000 * 2).
  apply Z.div_mul_cancel_r; lia.
Qed.

(** [Math.floor(hours * 1.5)] loses three points every two hours. *)
Lemma floor_hours_3_2 (now last : Z) :
  Qfloor (hoursSince now last * (3 # 2)) = (now - last) / 2400000.
Proof.
  unfold hoursSince.
  change (1000 * 60 * 60) with (Z.pos 3600000).
  rewrite Qfloor_scaled.
  change (Z.pos (3600000 * 2)) with (2400000 * 3).
  apply Z.div_mul_cancel_r; lia.
Qed.

Lemma floor_hours_1 (now last : Z) :
  Qfloor (hoursSince now last * 1) = (now - last) / 3600000.
Proof.
  unfold hoursSince.
  change (1000 * 60 * 60) with (Z.pos 3600000).
  change 1%Q with (1 # 1).
  rewrite Qfloor_scaled.
  now rewrite Z.mul_1_r.
Qed.

Lemma clamp_range (x : Z) : 0 ≤ clamp x 0 100 ≤ 100.
Proof. unfold clamp; lia. Qed.

Lemma clamp_min (x : Z) : 0 ≤ x → clamp x 0 100 = Z.min 100 x.
Proof. unfold clamp; lia. Qed.

Lemma clamp_max (x : Z) : x ≤ 100 → clamp x 0 100 = Z.max 0 x.
Proof. unfold clamp; lia. Qed.

(** ** The fields each transition writes *)

Section Fields.

Context (now : Z) (p : Pet.t).

Lemma feed_level :
  Pet.level (feed now p) = (Pet.experience p + 10) / 100 + 1.
Proof.
  change (Pet.level (feed now p))
    with (floor_div (Pet.experience p + 10) 100 + 1).
  now rewrite floor_div_100.
Qed.

Lemma play_level :
  Pet.level (play now p) = (Pet.experience p + 15) / 100 + 1.
Proof.
  change (Pet.level (play now p))
    with (floor_div (Pet.experience p + 15) 100 + 1).
  now rewrite floor_div_100.
Qed.

Lemma decay_hunger :
  Pet.hunger (decay now p) =
    Z.max 0 (Pet.hunger p - (now - Pet.lastFed p) / 1800000).
Proof.
  change (Pet.hunger (decay now p))
    with (Z.max 0 (Pet.hunger p - Qfloor (hoursSince now (Pet.lastFed p) * 2))).
  now rewrite floor_hours_2.
Qed.

Lemma decay_happiness :
  Pet.happiness (decay now p) =
    Z.max 0 (Pet.happiness p - (now - Pet.lastPlayed p) / 2400000).
Proof.
  change (Pet.happiness (decay now p))
    with (Z.max 0 (Pet.happiness p
                   - Qfloor (hoursSince now (Pet.lastPlayed p) * (3 # 2)))).
  now rewrite floor_hours_3_2.
Qed.

Lemma decay_energy :
  Pet.energy (decay now p) =
    Z.max 0 (Pet.energy p - (now - Pet.lastSlept p) / 3600000).
Proof.
  change (Pet.energy (decay now p))
    with (Z.max 0 (Pet.energy p - Qfloor (hoursSince now (Pet.lastSlept p) * 1))).
  now rewrite floor_hours_1.
Qed.

Lemma decay_status :
  Pet.status (decay now p) =
    calculatePetStatus (Pet.hunger (decay now p)) (Pet.health p)
                       (Pet.energy (decay now p)) (Pet.happiness (decay now p)).
Proof. reflexivity. Qed.

End Fields.

(** ** C1: the classifier *)

(** C1.  For every quadruple (hunger, health, energy, happiness) the status
    classifier [calculatePetStatus] answers sick if health < 30; otherwise
    sleeping if energy < 20; otherwise hungry if hunger < 30; otherwise happy
    if happiness > 80, health > 80 and energy > 60; otherwise active.  The
    input hunger 10, health 10, energy 10, happiness 90 is classified sick. *)
Theorem C1_calculatePetStatus_precedence (hunger health energy happiness : Z) :
  let s := calculatePetStatus hunger health energy happiness in
  (health < 30 → s = SICK) ∧
  (¬ health < 30 → energy < 20 → s = SLEEPING) ∧
  (¬ health < 30 → ¬ energy < 20 → hunger < 30 → s = HUNGRY) ∧
  (¬ health < 30 → ¬ energy < 20 → ¬ hunger < 30 →
     happiness > 80 ∧ health > 80 ∧ energy > 60 → s = HAPPY) ∧
  (¬ health < 30 → ¬ energy < 20 → ¬ hunger < 30 →
     ¬ (happiness > 80 ∧ health > 80 ∧ energy > 60) → s = ACTIVE) ∧
  calculatePetStatus 10 10 10 90 = SICK.
Proof.
  cbv zeta. repeat split; try reflexivity; intros; classify.
Qed.

Lemma C1_witness :
  calculatePetStatus 10 10 10 90 = SICK ∧
  calculatePetStatus 10 50 10 90 = SLEEPING ∧
  calculatePetStatus 10 50 50 90 = HUNGRY ∧
  calculatePetStatus 50 90 61 90 = HAPPY ∧
  calculatePetStatus 50 90 60 90 = ACTIVE.
Proof.
  split; [| split; [| split; [| split]]].
  - destruct (C1_calculatePetStatus_precedence 10 10 10 90) as (H & _).
    apply H; lia.
  - destruct (C1_calculatePetStatus_precedence 10 50 10 90) as (_ & H & _).
    apply H; lia.
  - destruct (C1_calculatePetStatus_precedence 10 50 50 90) as (_ & _ & H & _).
    apply H; lia.
  - destruct (C1_calculatePetStatus_precedence 50 90 61 90)
      as (_ & _ & _ & H & _).
    apply H; lia.
  - destruct (C1_calculatePetStatus_precedence 50 90 60 90)
      as (_ & _ & _ & _ & H & _).
    apply H; lia.
Defined.

(** ** C2: the vitals stay in range *)

Lemma decay_keeps_health now p : Pet.health (decay now p) = Pet.health p.
Proof. reflexivity. Qed.

Lemma decay_nonneg now p : vitals_nonneg p → vitals_nonneg (decay now p).
Proof.
  unfold vitals_nonneg.
  rewrite decay_keeps_health, decay_hunger, decay_happiness, decay_energy.
  lia.
Qed.

Lemma decay_valid now p :
  valid_vitals p → not_later now p → valid_vitals (decay now p).
Proof.
  unfold valid_vitals, not_later. intros Hv (Hf & Hp & Hs).
  rewrite decay_keeps_health, decay_hunger, decay_happiness, decay_energy.
  assert (0 ≤ (now - Pet.lastFed p) / 1800000) by (apply Z.div_pos; lia).
  assert (0 ≤ (now - Pet.lastPlayed p) / 2400000) by (apply Z.div_pos; lia).
  assert (0 ≤ (now - Pet.lastSlept p) / 3600000) by (apply Z.div_pos; lia).
  lia.
Qed.

Lemma action_valid t now p :
  t ≠ Decay → valid_vitals p → valid_vitals (transition t now p).
Proof.
  unfold valid_vitals. intros Ht Hv.
  destruct t; try congruence; cbn; lia.
Qed.

(** What does hold.  For feed, play, sleep and heal with any timestamps, and
    for decay when no last-action timestamp is later than now, a pet whose
    four vitals lie in [[0, 100]] is sent to a pet whose four vitals lie in
    [[0, 100]].  Decay, applied any number of times at any times (also with a
    last-action timestamp later than now), never pushes a vital below 0. *)
Lemma vitals_in_range :
  (∀ t now p,
     valid_vitals p → (t = Decay → not_later now p) →
     valid_vitals (transition t now p)) ∧
  (∀ nows p,
     vitals_nonneg p → vitals_nonneg (foldl (λ q now, decay now q) p nows)).
Proof.
  split.
  - intros t now p Hv Hl.
    destruct (decide (t = Decay)) as [-> | Ht].
    + apply decay_valid; auto.
    + now apply action_valid.
  - intros nows. induction nows as [| now nows IH]; intros p Hp; cbn.
    + exact Hp.
    + apply IH. now apply decay_nonneg.
Qed.

(** C2 (the code at the failing input).  [fed_in_future] has its four vitals
    in [[0, 100]] and a [lastFed] one millisecond later than the time 0 at
    which decay runs: the elapsed time is negative, its floor is -1, and
    decay stores hunger 101, outside [[0, 100]].  The loop has [Math.max(0, ·)]
    where feed, play, sleep and heal cap at 100 with [Math.min(100, ·)]. *)
Theorem C2_decay_above_100 :
  valid_vitals fed_in_future ∧
  Pet.lastFed fed_in_future > 0 ∧
  Qfloor (hoursSince 0 (Pet.lastFed fed_in_future) * 2) = -1 ∧
  Pet.hunger (transition Decay 0 fed_in_future) = 101 ∧
  ¬ valid_vitals (transition Decay 0 fed_in_future).
Proof.
  split; [| split; [| split; [| split]]].
  - unfold valid_vitals; cbn; lia.
  - cbn; lia.
  - reflexivity.
  - reflexivity.
  - intros (_ & (_ & Hle) & _).
    change (Pet.hunger (transition Decay 0 fed_in_future)) with 101 in Hle.
    lia.
Qed.

(** ** C3: feed *)

(** C3.  For every pet (hunger and happiness not negative, as the data model
    has them), [feed] sets hunger to clamp(hunger + 30, 0, 100) and happiness
    to clamp(happiness + 10, 0, 100), adds exactly 10 to experience, sets
    level to floor(new experience / 100) + 1, sets status to the classifier's
    answer on the updated hunger and happiness and the unchanged health and
    energy, and sets lastFed to now.  A pet with hunger 50, happiness 50 and
    experience 95 comes out with hunger 80, happiness 60, experience 105 and
    level 2. *)
Theorem C3_feed :
  (∀ now p,
     0 ≤ Pet.hunger p → 0 ≤ Pet.happiness p →
     Pet.hunger (feed now p) = clamp (Pet.hunger p + 30) 0 100 ∧
     Pet.happiness (feed now p) = clamp (Pet.happiness p + 10) 0 100 ∧
     Pet.experience (feed now p) = Pet.experience p + 10 ∧
     Pet.level (feed now p) = Pet.experience (feed now p) / 100 + 1 ∧
     Pet.health (feed now p) = Pet.health p ∧
     Pet.energy (feed now p) = Pet.energy p ∧
     Pet.status (feed now p) =
       calculatePetStatus (Pet.hunger (feed now p)) (Pet.health p)
                          (Pet.energy p) (Pet.happiness (feed now p)) ∧
     Pet.lastFed (feed now p) = now) ∧
  (∀ now p,
     Pet.hunger p = 50 → Pet.happiness p = 50 → Pet.experience p = 95 →
     Pet.hunger (feed now p) = 80 ∧ Pet.happiness (feed now p) = 60 ∧
     Pet.experience (feed now p) = 105 ∧ Pet.level (feed now p) = 2).
Proof.
  split.
  - intros now p Hh Hp.
    rewrite feed_level.
    repeat split; try reflexivity.
    + rewrite clamp_min by lia. reflexivity.
    + rewrite clamp_min by lia. reflexivity.
  - intros now p Hh Hp He.
    rewrite feed_level. cbn. rewrite Hh, Hp, He. repeat split.
Qed.

Lemma C3_witness :
  (Pet.hunger (feed 7 (sample 90 100 100 95 0)) = 100 ∧
   Pet.happiness (feed 7 (sample 90 100 100 95 0)) = 100 ∧
   Pet.lastFed (feed 7 (sample 90 100 100 95 0)) = 7) ∧
  (Pet.hunger (feed 7 (sample 50 100 100 50 95)) = 80 ∧
   Pet.happiness (feed 7 (sample 50 100 100 50 95)) = 60 ∧
   Pet.experience (feed 7 (sample 50 100 100 50 95)) = 105 ∧
   Pet.level (feed 7 (sample 50 100 100 50 95)) = 2).
Proof.
  split.
  - destruct (proj1 C3_feed 7 (sample 90 100 100 95 0))
      as (Hh & Hp & _ & _ & _ & _ & _ & Hl); [cbn; lia | cbn; lia |].
    rewrite Hh, Hp, Hl. repeat split.
  - apply (proj2 C3_feed 7 (sample 50 100 100 50 95)); reflexivity.
Defined.

(** ** C4: sleep *)

(** C4.  For every pet (energy and health not negative, as the data model has
    them), [sleep] sets energy to clamp(energy + 40, 0, 100), health to
    clamp(health + 10, 0, 100) and lastSlept to now; the status is active if
    the new energy exceeds 80 and sleeping otherwise, so it is one of these
    two labels whatever hunger, happiness and health are, and it is not the
    general classifier's answer (a pet with health 10 and energy 50 wakes up
    active where the classifier says sick); experience and level are
    unchanged.  From energy 50 and health 50 the pet has energy 90 and status
    active. *)
Theorem C4_sleep :
  (∀ now p,
     0 ≤ Pet.energy p → 0 ≤ Pet.health p →
     Pet.energy (sleep now p) = clamp (Pet.energy p + 40) 0 100 ∧
     Pet.health (sleep now p) = clamp (Pet.health p + 10) 0 100 ∧
     Pet.lastSlept (sleep now p) = now) ∧
  (∀ now p,
     (Pet.energy (sleep now p) > 80 → Pet.status (sleep now p) = ACTIVE) ∧
     (¬ Pet.energy (sleep now p) > 80 → Pet.status (sleep now p) = SLEEPING) ∧
     (Pet.status (sleep now p) = ACTIVE ∨ Pet.status (sleep now p) = SLEEPING) ∧
     Pet.experience (sleep now p) = Pet.experience p ∧
     Pet.level (sleep now p) = Pet.level p) ∧
  (∀ now p,
     Pet.energy p = 50 → Pet.health p = 50 →
     Pet.energy (sleep now p) = 90 ∧ Pet.status (sleep now p) = ACTIVE) ∧
  (∀ now,
     Pet.status (sleep now (sample 10 10 50 90 0)) = ACTIVE ∧
     calculatePetStatus (Pet.hunger (sleep now (sample 10 10 50 90 0)))
                        (Pet.health (sleep now (sample 10 10 50 90 0)))
                        (Pet.energy (sleep now (sample 10 10 50 90 0)))
                        (Pet.happiness (sleep now (sample 10 10 50 90 0)))
       = SICK).
Proof.
  split; [| split; [| split]].
  - intros now p He Hh. repeat split.
    + rewrite clamp_min by lia. reflexivity.
    + rewrite clamp_min by lia. reflexivity.
  - intros now p. cbn.
    destruct (Z.gtb_spec (Z.min 100 (Pet.energy p + 40)) 80);
      repeat split; auto; intros; lia.
  - intros now p He Hh. cbn. rewrite He. split; reflexivity.
  - intros now. split; reflexivity.
Qed.

Lemma C4_witness :
  (Pet.energy (sleep 3 (sample 10 95 70 40 0)) = 100 ∧
   Pet.health (sleep 3 (sample 10 95 70 40 0)) = 100 ∧
   Pet.lastSlept (sleep 3 (sample 10 95 70 40 0)) = 3) ∧
  Pet.status (sleep 3 (sample 10 95 70 40 0)) = ACTIVE ∧
  Pet.status (sleep 3 (sample 10 95 20 40 0)) = SLEEPING ∧
  (Pet.energy (sleep 3 (sample 100 50 50 100 0)) = 90 ∧
   Pet.status (sleep 3 (sample 100 50 50 100 0)) = ACTIVE).
Proof.
  split; [| split; [| split]].
  - destruct (proj1 C4_sleep 3 (sample 10 95 70 40 0)) as (He & Hh & Hs);
      [cbn; lia | cbn; lia |].
    rewrite He, Hh, Hs. repeat split.
  - apply (proj1 (proj2 C4_sleep) 3 (sample 10 95 70 40 0)). cbn; lia.
  - apply (proj1 (proj2 C4_sleep) 3 (sample 10 95 20 40 0)). cbn; lia.
  - apply (proj1 (proj2 (proj2 C4_sleep)) 3 (sample 100 50 50 100 0));
      reflexivity.
Defined.

(** ** C5: passive decay *)

(** The elapsed hours are the elapsed milliseconds over 3 600 000. *)
Lemma hoursSince_ms (now last : Z) :
  (hoursSince now last * inject_Z 3600000 == inject_Z (now - last))%Q.
Proof.
  unfold hoursSince. change (1000 * 60 * 60) with 3600000.
  rewrite Qmult_comm. apply Qmult_div_r. discriminate.
Qed.

(** What does hold.  For every pet and every now, [decay] sets hunger to
    max(0, hunger − floor(hoursSinceFed × 2)), happiness to
    max(0, happiness − floor(hoursSincePlayed × 1.5)) and energy to
    max(0, energy − floor(hoursSinceSlept × 1)), each hours value being the
    time from the pet's own last-action timestamp to now in hours; health is
    not decayed and the status is the general classifier's answer on the
    three new values and the unchanged health.  Where the vital is at most
    100 and its timestamp is not later than now, the new value is
    clamp(·, 0, 100) of the same difference.  A pet with hunger 100 fed
    exactly one hour ago has hunger 98, and one fed 0.4 hours ago keeps its
    hunger. *)
Lemma decay_formula :
  (∀ now p,
     Pet.hunger (decay now p) =
       Z.max 0 (Pet.hunger p - Qfloor (hoursSince now (Pet.lastFed p) * 2)) ∧
     Pet.happiness (decay now p) =
       Z.max 0 (Pet.happiness p
                - Qfloor (hoursSince now (Pet.lastPlayed p) * (3 # 2))) ∧
     Pet.energy (decay now p) =
       Z.max 0 (Pet.energy p - Qfloor (hoursSince now (Pet.lastSlept p) * 1)) ∧
     Pet.health (decay now p) = Pet.health p ∧
     Pet.status (decay now p) =
       calculatePetStatus (Pet.hunger (decay now p)) (Pet.health p)
                          (Pet.energy (decay now p))
                          (Pet.happiness (decay now p))) ∧
  (∀ now p,
     (Pet.hunger p ≤ 100 → Pet.lastFed p ≤ now →
      Pet.hunger (decay now p) =
        clamp (Pet.hunger p
               - Qfloor (hoursSince now (Pet.lastFed p) * 2)) 0 100) ∧
     (Pet.happiness p ≤ 100 → Pet.lastPlayed p ≤ now →
      Pet.happiness (decay now p) =
        clamp (Pet.happiness p
               - Qfloor (hoursSince now (Pet.lastPlayed p) * (3 # 2))) 0 100) ∧
     (Pet.energy p ≤ 100 → Pet.lastSlept p ≤ now →
      Pet.energy (decay now p) =
        clamp (Pet.energy p
               - Qfloor (hoursSince now (Pet.lastSlept p) * 1)) 0 100)) ∧
  (∀ now last,
     (hoursSince now last * inject_Z 3600000 == inject_Z (now - last))%Q) ∧
  (∀ now p,
     Pet.hunger p = 100 → Pet.lastFed p = now - 3600000 →
     Pet.hunger (decay now p) = 98) ∧
  (∀ now p,
     0 ≤ Pet.hunger p → Pet.lastFed p = now - 1440000 →
     Pet.hunger (decay now p) = Pet.hunger p).
Proof.
  split; [| split; [| split; [| split]]].
  - intros now p. repeat split.
  - intros now p. split; [| split]; intros Hle Hlast.
    + rewrite decay_hunger, floor_hours_2, clamp_max; [reflexivity |].
      assert (0 ≤ (now - Pet.lastFed p) / 1800000) by (apply Z.div_pos; lia).
      lia.
    + rewrite decay_happiness, floor_hours_3_2, clamp_max; [reflexivity |].
      assert (0 ≤ (now - Pet.lastPlayed p) / 2400000) by (apply Z.div_pos; lia).
      lia.
    + rewrite decay_energy, floor_hours_1, clamp_max; [reflexivity |].
      assert (0 ≤ (now - Pet.lastSlept p) / 3600000) by (apply Z.div_pos; lia).
      lia.
  - exact hoursSince_ms.
  - intros now p Hh Hl. rewrite decay_hunger, Hh, Hl.
    replace (now - (now - 3600000)) with 3600000 by lia. reflexivity.
  - intros now p Hh Hl. rewrite decay_hunger, Hl.
    replace (now - (now - 1440000)) with 1440000 by lia.
    change (1440000 / 1800000) with 0. lia.
Qed.

(** C5 (the code at the failing input).  [fed_hour_ahead] has hunger 100 and
    was fed one hour after the time 0 at which decay runs: the hours are -1,
    the floor of twice that is -2, and decay stores hunger
    max(0, 100 − (−2)) = 102, where clamp(100 − (−2), 0, 100) is 100. *)
Theorem C5_decay_no_upper_clamp :
  valid_vitals fed_hour_ahead ∧
  Qfloor (hoursSince 0 (Pet.lastFed fed_hour_ahead) * 2) = -2 ∧
  Pet.hunger (decay 0 fed_hour_ahead) = 102 ∧
  clamp (Pet.hunger fed_hour_ahead
         - Qfloor (hoursSince 0 (Pet.lastFed fed_hour_ahead) * 2)) 0 100 = 100 ∧
  Pet.hunger (decay 0 fed_hour_ahead)
    ≠ clamp (Pet.hunger fed_hour_ahead
             - Qfloor (hoursSince 0 (Pet.lastFed fed_hour_ahead) * 2)) 0 100.
Proof.
  split; [| repeat split; discriminate].
  unfold valid_vitals; cbn; lia.
Qed.

(** ** C6: the level follows the experience *)

Lemma rest_keeps_level t now p :
  t ≠ Feed → t ≠ Play →
  Pet.level (transition t now p) = Pet.level p ∧
  Pet.experience (transition t now p) = Pet.experience p.
Proof. destruct t; intros; try congruence; split; reflexivity. Qed.

(** C6 fails as stated: the service's own update can set the level apart
    from the experience (the README's PATCH with [{ level: 2 }] passes the
    validators of the DTO), and on such a pet, level 2 with experience 0,
    sleep, heal and decay put out level 2 where floor(0 / 100) + 1 is 1. *)
Lemma C6_counterexample :
  validate_UpdatePetDto level_2 = true ∧
  Pet.level promoted = 2 ∧ Pet.experience promoted = 0 ∧
  Pet.level (transition Sleep 0 promoted) = 2 ∧
  Pet.experience (transition Sleep 0 promoted) / 100 + 1 = 1 ∧
  Pet.level (transition Sleep 0 promoted)
    ≠ Pet.experience (transition Sleep 0 promoted) / 100 + 1 ∧
  Pet.level (transition Heal 0 promoted)
    ≠ Pet.experience (transition Heal 0 promoted) / 100 + 1 ∧
  Pet.level (transition Decay 0 promoted)
    ≠ Pet.experience (transition Decay 0 promoted) / 100 + 1.
Proof. repeat split; discriminate. Qed.

(** C6 (amended).  Every record feed and play put out has
    level = floor(experience / 100) + 1, whatever the pet was: they write both
    fields, the level computed from the new experience.  Sleep, heal and
    decay write neither field, so their output has the level and the
    experience of their input and satisfies the equation exactly when the
    input does; hence every transition keeps the equation on a pet that
    satisfies it.  No transition writes a level that is not computed from
    the experience. *)
Theorem C6_level_consistency :
  (∀ now p,
     Pet.level (feed now p) = Pet.experience (feed now p) / 100 + 1 ∧
     Pet.level (play now p) = Pet.experience (play now p) / 100 + 1) ∧
  (∀ t now p,
     t = Sleep ∨ t = Heal ∨ t = Decay →
     Pet.level (transition t now p) = Pet.level p ∧
     Pet.experience (transition t now p) = Pet.experience p) ∧
  (∀ t now p,
     t = Sleep ∨ t = Heal ∨ t = Decay →
     (Pet.level (transition t now p)
        = Pet.experience (transition t now p) / 100 + 1 ↔
      Pet.level p = Pet.experience p / 100 + 1)) ∧
  (∀ t now p,
     Pet.level p = Pet.experience p / 100 + 1 →
     Pet.level (transition t now p)
       = Pet.experience (transition t now p) / 100 + 1).
Proof.
  assert (∀ t now p,
            t = Sleep ∨ t = Heal ∨ t = Decay →
            Pet.level (transition t now p) = Pet.level p ∧
            Pet.experience (transition t now p) = Pet.experience p) as Hrest.
  { intros t now p Ht. apply rest_keeps_level; intros ->;
      destruct Ht as [Ht | [Ht | Ht]]; discriminate Ht. }
  split; [| split; [| split]].
  - intros now p. rewrite feed_level, play_level. split; reflexivity.
  - exact Hrest.
  - intros t now p Ht. destruct (Hrest t now p Ht) as [-> ->]. reflexivity.
  - intros t now p Hp.
    destruct (decide (t = Feed)) as [-> | Hf]; [apply feed_level |].
    destruct (decide (t = Play)) as [-> | Hpl]; [apply play_level |].
    destruct (rest_keeps_level t now p Hf Hpl) as [-> ->]. exact Hp.
Qed.

Lemma C6_witness :
  (Pet.level (transition Sleep 9 (sample 40 40 40 40 250)) = 3 ∧
   Pet.experience (transition Sleep 9 (sample 40 40 40 40 250)) = 250) ∧
  Pet.level (transition Heal 9 (sample 40 40 40 40 250))
    = Pet.experience (transition Heal 9 (sample 40 40 40 40 250)) / 100 + 1 ∧
  Pet.level (transition Decay 7200000 (sample 40 40 40 40 250))
    = Pet.experience (transition Decay 7200000 (sample 40 40 40 40 250)) / 100
      + 1 ∧
  Pet.level (transition Play 9 (sample 40 40 40 40 290))
    = Pet.experience (transition Play 9 (sample 40 40 40 40 290)) / 100 + 1.
Proof.
  destruct C6_level_consistency as (_ & Hkeep & Hiff & Hinv).
  split; [| split; [| split]].
  - apply (Hkeep Sleep 9 (sample 40 40 40 40 250)). left; reflexivity.
  - apply (Hiff Heal 9 (sample 40 40 40 40 250)).
    + right; left; reflexivity.
    + reflexivity.
  - apply Hinv. reflexivity.
  - apply Hinv. reflexivity.
Defined.

(** ** C7: calling a transition twice at the same time *)

(** Two pets with the same fields are the same pet. *)
Lemma Pet_eq (p q : Pet.t) :
  Pet.name p = Pet.name q → Pet.type p = Pet.type q →
  Pet.userId p = Pet.userId q → Pet.level p = Pet.level q →
  Pet.experience p = Pet.experience q → Pet.health p = Pet.health q →
  Pet.hunger p = Pet.hunger q → Pet.happiness p = Pet.happiness q →
  Pet.energy p = Pet.energy q → Pet.status p = Pet.status q →
  Pet.lastFed p = Pet.lastFed q → Pet.lastPlayed p = Pet.lastPlayed q →
  Pet.lastSlept p = Pet.lastSlept q → Pet.avatar p = Pet.avatar q →
  Pet.battlesWon p = Pet.battlesWon q → Pet.battlesLost p = Pet.battlesLost q →
  Pet.is_active p = Pet.is_active q → p = q.
Proof. destruct p, q; cbn; intros; subst; reflexivity. Qed.

Lemma max_twice (v d : Z) :
  Z.max 0 (Z.max 0 (v - d) - d) = Z.max 0 (v - d) ↔ settled v d.
Proof. unfold settled. lia. Qed.

Section Twice.

Context (now : Z) (p : Pet.t).

Lemma decay_twice_hunger :
  Pet.hunger (decay now (decay now p)) =
    Z.max 0 (Z.max 0 (Pet.hunger p - hungerLoss now p) - hungerLoss now p).
Proof. reflexivity. Qed.

Lemma decay_twice_happiness :
  Pet.happiness (decay now (decay now p)) =
    Z.max 0 (Z.max 0 (Pet.happiness p - happinessLoss now p)
             - happinessLoss now p).
Proof. reflexivity. Qed.

Lemma decay_twice_energy :
  Pet.energy (decay now (decay now p)) =
    Z.max 0 (Z.max 0 (Pet.energy p - energyLoss now p) - energyLoss now p).
Proof. reflexivity. Qed.

Lemma decay_once :
  Pet.hunger (decay now p) = Z.max 0 (Pet.hunger p - hungerLoss now p) ∧
  Pet.happiness (decay now p)
    = Z.max 0 (Pet.happiness p - happinessLoss now p) ∧
  Pet.energy (decay now p) = Z.max 0 (Pet.energy p - energyLoss now p).
Proof. repeat split. Qed.

Lemma feed_twice : feed now (feed now p) ≠ feed now p.
Proof. intros H. apply (f_equal Pet.experience) in H. cbn in H. lia. Qed.

Lemma play_twice : play now (play now p) ≠ play now p.
Proof. intros H. apply (f_equal Pet.experience) in H. cbn in H. lia. Qed.

Lemma sleep_twice :
  sleep now (sleep now p) = sleep now p ↔
  60 ≤ Pet.energy p ∧ 90 ≤ Pet.health p.
Proof.
  split.
  - intros H.
    pose proof (f_equal Pet.energy H) as He.
    pose proof (f_equal Pet.health H) as Hh.
    cbn in He, Hh. lia.
  - intros [He Hh].
    assert (Pet.energy (sleep now (sleep now p)) = Pet.energy (sleep now p))
      as Ee by (cbn; lia).
    apply Pet_eq; try reflexivity; try exact Ee.
    + cbn; lia.
    + change (Pet.status (sleep now (sleep now p)))
        with (if Pet.energy (sleep now (sleep now p)) >? 80
              then ACTIVE else SLEEPING).
      rewrite Ee. reflexivity.
Qed.

Lemma heal_twice :
  heal now (heal now p) = heal now p ↔ 70 ≤ Pet.health p.
Proof.
  split.
  - intros H. pose proof (f_equal Pet.health H) as Hh. cbn in Hh. lia.
  - intros Hh.
    assert (Pet.health (heal now (heal now p)) = Pet.health (heal now p))
      as Eh by (cbn; lia).
    apply Pet_eq; try reflexivity; try exact Eh.
    change (Pet.status (heal now (heal now p)))
      with (calculatePetStatus (Pet.hunger p)
              (Pet.health (heal now (heal now p)))
              (Pet.energy p) (Pet.happiness p)).
    rewrite Eh. reflexivity.
Qed.

Lemma decay_twice :
  decay now (decay now p) = decay now p ↔
  settled (Pet.hunger p) (hungerLoss now p) ∧
  settled (Pet.happiness p) (happinessLoss now p) ∧
  settled (Pet.energy p) (energyLoss now p).
Proof.
  destruct decay_once as (Hh & Hp & He).
  rewrite <- !max_twice,
    <- decay_twice_hunger, <- decay_twice_happiness, <- decay_twice_energy,
    <- Hh, <- Hp, <- He.
  split.
  - intros H. now rewrite H.
  - intros (Eh & Ep & Ee).
    apply Pet_eq; auto.
    rewrite !decay_status, Eh, Ep, Ee. reflexivity.
Qed.

End Twice.

(** C7 fails as stated, for each of the five transitions, on one pet (hunger
    and happiness 100, health and energy 50, never fed since time 0) one hour
    after its creation: a second feed or play adds experience again, a second
    sleep or heal adds energy or health again, and a second decay at the same
    [now] subtracts the same loss again, as no timestamp was moved. *)
Lemma C7_counterexample :
  feed 3600000 (feed 3600000 (sample 100 50 50 100 0))
    ≠ feed 3600000 (sample 100 50 50 100 0) ∧
  play 3600000 (play 3600000 (sample 100 50 50 100 0))
    ≠ play 3600000 (sample 100 50 50 100 0) ∧
  sleep 3600000 (sleep 3600000 (sample 100 50 50 100 0))
    ≠ sleep 3600000 (sample 100 50 50 100 0) ∧
  heal 3600000 (heal 3600000 (sample 100 50 50 100 0))
    ≠ heal 3600000 (sample 100 50 50 100 0) ∧
  decay 3600000 (decay 3600000 (sample 100 50 50 100 0))
    ≠ decay 3600000 (sample 100 50 50 100 0) ∧
  Pet.experience (feed 3600000 (feed 3600000 (sample 100 50 50 100 0))) = 20 ∧
  Pet.experience (feed 3600000 (sample 100 50 50 100 0)) = 10 ∧
  Pet.hunger (decay 3600000 (decay 3600000 (sample 100 50 50 100 0))) = 96 ∧
  Pet.hunger (decay 3600000 (sample 100 50 50 100 0)) = 98 ∧
  ¬ (∀ t now p, transition t now (transition t now p) = transition t now p).
Proof.
  assert (feed 3600000 (feed 3600000 (sample 100 50 50 100 0))
            ≠ feed 3600000 (sample 100 50 50 100 0))
    as Hne by (intros H; apply (f_equal Pet.experience) in H; discriminate H).
  split; [exact Hne |].
  split; [intros H; apply (f_equal Pet.experience) in H; discriminate H |].
  split; [intros H; apply (f_equal Pet.energy) in H; discriminate H |].
  split; [intros H; apply (f_equal Pet.health) in H; discriminate H |].
  split; [intros H; apply (f_equal Pet.hunger) in H; discriminate H |].
  repeat split.
  intros H. exact (Hne (H Feed 3600000 (sample 100 50 50 100 0))).
Qed.

(** C7 (amended).  A repeated call with the same now gives the same record
    only on a pet the transition has nothing left to change in:
    sleep(sleep(pet, now), now) = sleep(pet, now) exactly when energy ≥ 60
    and health ≥ 90; heal exactly when health ≥ 70; decay, on a pet none of
    whose last-action timestamps is later than now, exactly when for each of
    hunger, happiness and energy the floor taken off it is 0 or is positive
    and at least the vital; feed and play never, as each call adds 10 or 15
    to the experience. *)
Theorem C7_repeated_call :
  (∀ now p, feed now (feed now p) ≠ feed now p) ∧
  (∀ now p, play now (play now p) ≠ play now p) ∧
  (∀ now p,
     sleep now (sleep now p) = sleep now p ↔
     60 ≤ Pet.energy p ∧ 90 ≤ Pet.health p) ∧
  (∀ now p, heal now (heal now p) = heal now p ↔ 70 ≤ Pet.health p) ∧
  (∀ now p,
     not_later now p →
     (decay now (decay now p) = decay now p ↔
      settled (Pet.hunger p) (Qfloor (hoursSince now (Pet.lastFed p) * 2)) ∧
      settled (Pet.happiness p)
              (Qfloor (hoursSince now (Pet.lastPlayed p) * (3 # 2))) ∧
      settled (Pet.energy p)
              (Qfloor (hoursSince now (Pet.lastSlept p) * 1)))).
Proof.
  split; [| split; [| split; [| split]]].
  - exact feed_twice.
  - exact play_twice.
  - exact sleep_twice.
  - exact heal_twice.
  - intros now p _. apply decay_twice.
Qed.

Lemma C7_witness :
  sleep 5 (sleep 5 (sample 50 95 70 50 0)) = sleep 5 (sample 50 95 70 50 0) ∧
  heal 5 (heal 5 (sample 50 70 50 50 0)) = heal 5 (sample 50 70 50 50 0) ∧
  decay 1000 (decay 1000 (sample 50 50 50 50 0))
    = decay 1000 (sample 50 50 50 50 0) ∧
  decay 3600000 (decay 3600000 (sample 2 50 1 1 0))
    = decay 3600000 (sample 2 50 1 1 0).
Proof.
  destruct C7_repeated_call as (_ & _ & Hs & Hh & Hd).
  split; [| split; [| split]].
  - apply Hs. cbn; lia.
  - apply Hh. cbn; lia.
  - apply Hd.
    + unfold not_later; cbn; lia.
    + repeat split; left; reflexivity.
  - apply Hd.
    + unfold not_later; cbn; lia.
    + repeat split; right; split; reflexivity || (cbn; discriminate).
Defined.

(** ** The service methods on a stored pet *)

Lemma alter_found (f : Pet.t → Pet.t) (id : string) (p : Pet.t)
    (db : gmap string Pet.t) :
  db !! id = Some p → alter f id db = <[id := f p]> db.
Proof.
  intros Hp. apply map_eq. intros j.
  destruct (decide (id = j)) as [<- | Hne].
  - now rewrite lookup_alter_eq, lookup_insert_eq, Hp.
  - now rewrite lookup_alter_ne, lookup_insert_ne.
Qed.

Lemma update_found id dto p (db : gmap string Pet.t) :
  db !! id = Some p →
  update id dto db = inr (Some (set_fields dto p), <[id := set_fields dto p]> db).
Proof.
  intros Hp. unfold update. now rewrite Hp, (alter_found _ _ p).
Qed.

Lemma feedPet_found now id p (db : gmap string Pet.t) :
  db !! id = Some p →
  feedPet now id db = inr (Some (feed now p), <[id := feed now p]> db).
Proof.
  intros Hp. unfold feedPet, mbind, Service_bind, findById.
  rewrite Hp. now apply update_found.
Qed.

Lemma playWithPet_found now id p (db : gmap string Pet.t) :
  db !! id = Some p →
  playWithPet now id db = inr (Some (play now p), <[id := play now p]> db).
Proof.
  intros Hp. unfold playWithPet, mbind, Service_bind, findById.
  rewrite Hp. now apply update_found.
Qed.

Lemma sleepPet_found now id p (db : gmap string Pet.t) :
  db !! id = Some p →
  sleepPet now id db = inr (Some (sleep now p), <[id := sleep now p]> db).
Proof.
  intros Hp. unfold sleepPet, mbind, Service_bind, findById.
  rewrite Hp. now apply update_found.
Qed.

Lemma healPet_found now id p (db : gmap string Pet.t) :
  db !! id = Some p →
  healPet id db = inr (Some (heal now p), <[id := heal now p]> db).
Proof.
  intros Hp. unfold healPet, mbind, Service_bind, findById.
  rewrite Hp. now apply update_found.
Qed.

(** An action on an id that is not stored throws and leaves the store. *)
Lemma action_not_found now id (db : gmap string Pet.t) :
  db !! id = None →
  feedPet now id db = inl (NotFoundException "Pet not found") ∧
  playWithPet now id db = inl (NotFoundException "Pet not found") ∧
  sleepPet now id db = inl (NotFoundException "Pet not found") ∧
  healPet id db = inl (NotFoundException "Pet not found").
Proof.
  intros Hp.
  unfold feedPet, playWithPet, sleepPet, healPet, mbind, Service_bind, findById.
  rewrite Hp. repeat split.
Qed.

(** The loop of [updatePetStatsOverTime] over a snapshot [pets] of distinct
    documents, each of them still stored as it was read. *)
Lemma for_of_decay now (pets : list PetDocument) :
  ∀ db : gmap string Pet.t,
    NoDup pets.*1 →
    (∀ id p, (id, p) ∈ pets → db !! id = Some p) →
    ∃ db' : gmap string Pet.t,
      for_of pets (λ pet : PetDocument,
        _ ← update pet.1 (updatePetStatsOverTime_update now pet.2);
        mret ()) db = inr ((), db') ∧
      ∀ id, db' !! id =
              if decide (id ∈ pets.*1) then decay now <$> db !! id
              else db !! id.
Proof.
  induction pets as [| [i p] pets IH]; intros db Hnd Hin.
  - exists db. split; [reflexivity |]. intros id.
    case_decide as H; [| reflexivity].
    cbn in H. now apply not_elem_of_nil in H.
  - rewrite fmap_cons in Hnd. apply NoDup_cons in Hnd as [Hi Hnd].
    assert (db !! i = Some p) as Hp by (apply Hin; left).
    set (db1 := alter (set_fields (updatePetStatsOverTime_update now p)) i db).
    destruct (IH db1 Hnd) as (db' & Hrun & Hlook).
    { intros id q Hq. unfold db1. rewrite lookup_alter_ne.
      - apply Hin. now right.
      - intros ->. apply Hi. apply list_elem_of_fmap.
        exists (id, q). split; [reflexivity | exact Hq]. }
    exists db'. split; [exact Hrun |].
    intros id. rewrite Hlook. rewrite fmap_cons. cbn [fst].
    destruct (decide (id = i)) as [-> | Hne].
    + rewrite decide_False by exact Hi.
      rewrite decide_True by left.
      unfold db1. rewrite lookup_alter_eq, Hp. reflexivity.
    + unfold db1. rewrite lookup_alter_ne by congruence.
      destruct (decide (id ∈ pets.*1)) as [Hm | Hm].
      * rewrite decide_True by (right; exact Hm). reflexivity.
      * rewrite decide_False; [reflexivity |].
        intros [-> | H]%elem_of_cons; [now apply Hne | now apply Hm].
Qed.

(** The batch decay rewrites the whole collection: every stored pet, under
    its own [_id], becomes its decayed self. *)
Lemma updatePetStatsOverTime_all now (db : gmap string Pet.t) :
  updatePetStatsOverTime now db = inr ((), decay now <$> db).
Proof.
  assert (updatePetStatsOverTime now db =
            for_of (map_to_list db) (λ pet : PetDocument,
              _ ← update pet.1 (updatePetStatsOverTime_update now pet.2);
              mret ()) db) as -> by reflexivity.
  destruct (for_of_decay now (map_to_list db) db) as (db' & -> & Hlook).
  - apply NoDup_fst_map_to_list.
  - intros id p. apply elem_of_map_to_list.
  - f_equal. f_equal. apply map_eq. intros id.
    rewrite Hlook, lookup_fmap.
    destruct (decide (id ∈ (map_to_list db).*1)) as [_ | Hno]; [reflexivity |].
    destruct (db !! id) as [p |] eqn:Hp; [| reflexivity].
    exfalso. apply Hno. apply list_elem_of_fmap.
    exists (id, p). split; [reflexivity | now apply elem_of_map_to_list].
Qed.

(** ** C8: what heal and decay leave alone *)

(** C8.  [heal] changes only health and status: experience, level, lastFed,
    lastPlayed and lastSlept (and hunger, happiness, energy) keep their
    values.  [decay] changes only hunger, happiness, energy and status:
    experience, level, health and the three timestamps keep their values.  No
    transition changes battlesWon, battlesLost, the owner, the type or the
    active flag; and the document stays under its own id: each action
    replaces the pet stored under the id it was called with, and the batch
    decay keeps every id. *)
Theorem C8_frame :
  (∀ now p,
     Pet.experience (heal now p) = Pet.experience p ∧
     Pet.level (heal now p) = Pet.level p ∧
     Pet.lastFed (heal now p) = Pet.lastFed p ∧
     Pet.lastPlayed (heal now p) = Pet.lastPlayed p ∧
     Pet.lastSlept (heal now p) = Pet.lastSlept p ∧
     Pet.hunger (heal now p) = Pet.hunger p ∧
     Pet.happiness (heal now p) = Pet.happiness p ∧
     Pet.energy (heal now p) = Pet.energy p) ∧
  (∀ now p,
     Pet.experience (decay now p) = Pet.experience p ∧
     Pet.level (decay now p) = Pet.level p ∧
     Pet.health (decay now p) = Pet.health p ∧
     Pet.lastFed (decay now p) = Pet.lastFed p ∧
     Pet.lastPlayed (decay now p) = Pet.lastPlayed p ∧
     Pet.lastSlept (decay now p) = Pet.lastSlept p) ∧
  (∀ t now p,
     Pet.battlesWon (transition t now p) = Pet.battlesWon p ∧
     Pet.battlesLost (transition t now p) = Pet.battlesLost p ∧
     Pet.userId (transition t now p) = Pet.userId p ∧
     Pet.type (transition t now p) = Pet.type p ∧
     Pet.is_active (transition t now p) = Pet.is_active p ∧
     Pet.name (transition t now p) = Pet.name p ∧
     Pet.avatar (transition t now p) = Pet.avatar p) ∧
  (∀ now id p (db : gmap string Pet.t),
     db !! id = Some p →
     feedPet now id db = inr (Some (feed now p), <[id := feed now p]> db) ∧
     playWithPet now id db = inr (Some (play now p), <[id := play now p]> db) ∧
     sleepPet now id db = inr (Some (sleep now p), <[id := sleep now p]> db) ∧
     healPet id db = inr (Some (heal now p), <[id := heal now p]> db)) ∧
  (∀ now (db : gmap string Pet.t),
     ∃ db' : gmap string Pet.t,
       updatePetStatsOverTime now db = inr ((), db') ∧
       ∀ id, db' !! id = decay now <$> db !! id).
Proof.
  split; [| split; [| split; [| split]]].
  - intros now p. repeat split.
  - intros now p. repeat split.
  - intros t now p. destruct t; repeat split; destruct (Pet.avatar p); reflexivity.
  - intros now id p db Hp. split; [| split; [| split]].
    + now apply feedPet_found.
    + now apply playWithPet_found.
    + now apply sleepPet_found.
    + now apply healPet_found.
  - intros now db. exists (decay now <$> db). split.
    + apply updatePetStatsOverTime_all.
    + intros id. apply lookup_fmap.
Qed.

Lemma C8_witness :
  healPet "a" {[ "a" := sample 50 20 50 50 0 ]}
    = inr (Some (heal 0 (sample 50 20 50 50 0)),
           <[ "a" := heal 0 (sample 50 20 50 50 0) ]>
             {[ "a" := sample 50 20 50 50 0 ]}).
Proof.
  apply (proj1 (proj2 (proj2 (proj2 C8_frame))) 0 "a" (sample 50 20 50 50 0)).
  reflexivity.
Defined.

(** ** C9: the pet types *)

(** C9 (the code as it is).  The enum [PetType] has the two members fish and
    cat: the pet-types query returns these two, in this order, and the
    validator of a new pet's type accepts exactly these two, so dog, bird and
    rabbit are refused. *)
Theorem C9_pet_types :
  (∀ db : gmap string Pet.t, getPetTypes db = inr (["fish"; "cat"], db)) ∧
  (∀ s, IsEnum_PetType s = true ↔ s = "fish" ∨ s = "cat") ∧
  IsEnum_PetType "dog" = false ∧
  IsEnum_PetType "bird" = false ∧
  IsEnum_PetType "rabbit" = false.
Proof.
  split; [| split; [| repeat split]].
  - intros db. reflexivity.
  - intros s. unfold IsEnum_PetType. rewrite bool_decide_eq_true.
    unfold PetType_values. cbn.
    rewrite !elem_of_cons. split.
    + intros [-> | [-> | H]]; [now left | now right |].
      now apply not_elem_of_nil in H.
    + intros [-> | ->]; [now left | right; now left].
Qed.

(** ** C10: the batch decay and soft-deleted pets *)

Lemma findByUserId_spec userId (db : gmap string Pet.t) :
  ∃ l : list PetDocument,
    findByUserId userId db = inr (l, db) ∧
    ∀ id p, (id, p) ∈ l ↔
            db !! id = Some p ∧ Pet.userId p = userId ∧ Pet.is_active p = true.
Proof.
  eexists. split; [reflexivity |].
  intros id p. rewrite list_elem_of_filter, elem_of_map_to_list. cbn. tauto.
Qed.

(** C10.  The batch decay applies the per-pet decay to every pet of the
    store, soft-deleted ones included: a stored pet whose active flag is
    false comes out decayed, although the listing of its owner's pets leaves
    it out (that listing holds exactly the owner's pets whose flag is
    true). *)
Theorem C10_decay_reaches_soft_deleted :
  (∀ now (db : gmap string Pet.t),
     updatePetStatsOverTime now db = inr ((), decay now <$> db)) ∧
  (∀ now (db : gmap string Pet.t) id p,
     db !! id = Some p → Pet.is_active p = false →
     (∃ db' : gmap string Pet.t,
        updatePetStatsOverTime now db = inr ((), db') ∧
        db' !! id = Some (decay now p)) ∧
     (∃ l : list PetDocument,
        findByUserId (Pet.userId p) db = inr (l, db) ∧ (id, p) ∉ l)) ∧
  (∀ userId (db : gmap string Pet.t),
     ∃ l : list PetDocument,
       findByUserId userId db = inr (l, db) ∧
       ∀ id p, (id, p) ∈ l ↔
               db !! id = Some p ∧ Pet.userId p = userId ∧
               Pet.is_active p = true).
Proof.
  split; [| split].
  - exact updatePetStatsOverTime_all.
  - intros now db id p Hp Hoff. split.
    + exists (decay now <$> db). split.
      * apply updatePetStatsOverTime_all.
      * now rewrite lookup_fmap, Hp.
    + destruct (findByUserId_spec (Pet.userId p) db) as (l & Hl & Hin).
      exists l. split; [exact Hl |].
      intros (_ & _ & Hon)%Hin. congruence.
  - exact findByUserId_spec.
Qed.

Lemma C10_witness :
  (∃ db' : gmap string Pet.t,
     updatePetStatsOverTime 3600000 {[ "a" := retired ]} = inr ((), db') ∧
     db' !! "a" = Some (decay 3600000 retired)) ∧
  (∃ l : list PetDocument,
     findByUserId "u1" {[ "a" := retired ]} = inr (l, {[ "a" := retired ]}) ∧
     ("a", retired) ∉ l).
Proof.
  apply (proj1 (proj2 C10_decay_reaches_soft_deleted) 3600000
           {[ "a" := retired ]} "a" retired); reflexivity.
Defined.

(** * Further properties of the pets module *)

(** ** What each action does to the status *)

Lemma feed_status now p :
  Pet.status (feed now p) =
    calculatePetStatus (Z.min 100 (Pet.hunger p + 30)) (Pet.health p)
                       (Pet.energy p) (Z.min 100 (Pet.happiness p + 10)).
Proof. reflexivity. Qed.

Lemma play_status now p :
  Pet.status (play now p) =
    calculatePetStatus (Z.max 0 (Pet.hunger p - 15)) (Pet.health p)
                       (Z.max 0 (Pet.energy p - 20))
                       (Z.min 100 (Pet.happiness p + 25)).
Proof. reflexivity. Qed.

Lemma heal_status now p :
  Pet.status (heal now p) =
    calculatePetStatus (Pet.hunger p) (Z.min 100 (Pet.health p + 30))
                       (Pet.energy p) (Pet.happiness p).
Proof. reflexivity. Qed.

(** X1.  Feeding takes the hunger of a pet (hunger not negative) to at least
    30, so a pet that has just been fed is never classified hungry. *)
Theorem feedPet_never_hungry now p :
  0 ≤ Pet.hunger p →
  30 ≤ Pet.hunger (feed now p) ∧ Pet.status (feed now p) ≠ HUNGRY.
Proof.
  intros Hh. split; [cbn; lia |].
  rewrite feed_status. classify; discriminate.
Qed.

Lemma feedPet_never_hungry_witness :
  30 ≤ Pet.hunger (feed 5 (sample 0 50 50 50 0)) ∧
  Pet.status (feed 5 (sample 0 50 50 50 0)) ≠ HUNGRY.
Proof. apply (feedPet_never_hungry 5 (sample 0 50 50 50 0)). cbn; lia. Defined.

(** X2.  Healing takes the health of a pet (health not negative) to at least
    30, so a pet that has just been healed is never classified sick. *)
Theorem healPet_never_sick now p :
  0 ≤ Pet.health p →
  30 ≤ Pet.health (heal now p) ∧ Pet.status (heal now p) ≠ SICK.
Proof.
  intros Hh. split; [cbn; lia |].
  rewrite heal_status. classify; discriminate.
Qed.

Lemma healPet_never_sick_witness :
  30 ≤ Pet.health (heal 5 (sample 50 0 50 50 0)) ∧
  Pet.status (heal 5 (sample 50 0 50 50 0)) ≠ SICK.
Proof. apply (healPet_never_sick 5 (sample 50 0 50 50 0)). cbn; lia. Defined.

(** X3.  After sleep the status is decided by the energy the pet had before:
    active exactly when it was above 40, sleeping exactly when it was 40 or
    less, whatever the other vitals are. *)
Theorem sleepPet_status_by_energy now p :
  (Pet.status (sleep now p) = ACTIVE ↔ 40 < Pet.energy p) ∧
  (Pet.status (sleep now p) = SLEEPING ↔ Pet.energy p ≤ 40).
Proof.
  change (Pet.status (sleep now p))
    with (if Z.min 100 (Pet.energy p + 40) >? 80 then ACTIVE else SLEEPING).
  destruct (Z.gtb_spec (Z.min 100 (Pet.energy p + 40)) 80);
    split; split; intros; try discriminate; try reflexivity; lia.
Qed.

(** X4.  Playing costs: on a pet with vitals in [[0, 100]] it never raises
    energy or hunger and never lowers happiness, and a pet that is not sick
    (health at least 30) and has less than 40 energy is asleep after it. *)
Theorem playWithPet_tires now p :
  valid_vitals p →
  Pet.energy (play now p) ≤ Pet.energy p ∧
  Pet.hunger (play now p) ≤ Pet.hunger p ∧
  Pet.happiness p ≤ Pet.happiness (play now p) ∧
  (30 ≤ Pet.health p → Pet.energy p < 40 →
   Pet.status (play now p) = SLEEPING).
Proof.
  unfold valid_vitals. intros Hv.
  split; [cbn; lia |]. split; [cbn; lia |]. split; [cbn; lia |].
  intros Hh He. rewrite play_status. classify.
Qed.

Lemma playWithPet_tires_witness :
  Pet.status (play 5 (sample 100 100 39 100 0)) = SLEEPING.
Proof.
  apply (playWithPet_tires 5 (sample 100 100 39 100 0)).
  - unfold valid_vitals; cbn; lia.
  - cbn; lia.
  - cbn; lia.
Defined.

(** ** Experience and level *)

(** X5.  Feed and play never lower the level of a pet whose level is the one
    derived from its experience, and raise it by at most one; the experience
    grows by exactly 10 and 15. *)
Theorem feed_play_level_step now p :
  Pet.level p = Pet.experience p / 100 + 1 →
  Pet.level p ≤ Pet.level (feed now p) ≤ Pet.level p + 1 ∧
  Pet.level p ≤ Pet.level (play now p) ≤ Pet.level p + 1 ∧
  Pet.experience (feed now p) = Pet.experience p + 10 ∧
  Pet.experience (play now p) = Pet.experience p + 15.
Proof.
  intros Hl. rewrite feed_level, play_level, Hl.
  repeat split; try reflexivity;
    apply Z.add_le_mono_r || idtac;
    Z.div_mod_to_equations; lia.
Qed.

Lemma feed_play_level_step_witness :
  Pet.level (sample 50 50 50 50 95) ≤ Pet.level (feed 5 (sample 50 50 50 50 95))
    ≤ Pet.level (sample 50 50 50 50 95) + 1.
Proof. apply (feed_play_level_step 5 (sample 50 50 50 50 95)). reflexivity. Defined.

(** ** Decay over time *)

(** X6.  An action restarts the clock of the vital it tends: decay run less
    than 30 minutes after a feed leaves the hunger the feed has set, less
    than 40 minutes after a play the happiness, less than one hour after a
    sleep the energy (the pet's vital not negative before the action). *)
Theorem action_restarts_decay now now' p :
  now ≤ now' →
  (0 ≤ Pet.hunger p → now' < now + 1800000 →
   Pet.hunger (decay now' (feed now p)) = Pet.hunger (feed now p)) ∧
  (0 ≤ Pet.happiness p → now' < now + 2400000 →
   Pet.happiness (decay now' (play now p)) = Pet.happiness (play now p)) ∧
  (0 ≤ Pet.energy p → now' < now + 3600000 →
   Pet.energy (decay now' (sleep now p)) = Pet.energy (sleep now p)).
Proof.
  intros Hle. split; [| split]; intros Hv Hlt.
  - rewrite decay_hunger.
    change (Pet.lastFed (feed now p)) with now.
    rewrite Z.div_small by lia. cbn; lia.
  - rewrite decay_happiness.
    change (Pet.lastPlayed (play now p)) with now.
    rewrite Z.div_small by lia. cbn; lia.
  - rewrite decay_energy.
    change (Pet.lastSlept (sleep now p)) with now.
    rewrite Z.div_small by lia. cbn; lia.
Qed.

Lemma action_restarts_decay_witness :
  Pet.hunger (decay 1799999 (feed 0 (sample 20 50 50 50 0)))
    = Pet.hunger (feed 0 (sample 20 50 50 50 0)) ∧
  Pet.happiness (decay 2399999 (play 0 (sample 20 50 50 50 0)))
    = Pet.happiness (play 0 (sample 20 50 50 50 0)) ∧
  Pet.energy (decay 3599999 (sleep 0 (sample 20 50 50 50 0)))
    = Pet.energy (sleep 0 (sample 20 50 50 50 0)).
Proof.
  split; [| split].
  - apply (action_restarts_decay 0 1799999 (sample 20 50 50 50 0));
      [lia | cbn; lia | lia].
  - apply (action_restarts_decay 0 2399999 (sample 20 50 50 50 0));
      [lia | cbn; lia | lia].
  - apply (action_restarts_decay 0 3599999 (sample 20 50 50 50 0));
      [lia | cbn; lia | lia].
Defined.

Lemma decay_iter_timestamps now n p :
  Pet.lastFed (Nat.iter n (decay now) p) = Pet.lastFed p ∧
  Pet.lastPlayed (Nat.iter n (decay now) p) = Pet.lastPlayed p ∧
  Pet.lastSlept (Nat.iter n (decay now) p) = Pet.lastSlept p.
Proof.
  induction n as [| n IH]; [repeat split |].
  change (Nat.iter (S n) (decay now) p)
    with (decay now (Nat.iter n (decay now) p)).
  destruct IH as (<- & <- & <-). repeat split.
Qed.

(** X7.  Decay moves no timestamp, so every further run at the same instant
    takes the whole loss off again: after [n] runs ([n] at least 1) of a pet
    whose last action is not later than now, each decayed vital is
    max(0, vital − n × loss), the loss being the floor of the hours since
    that action times the rate. *)
Theorem decay_accumulates now n p :
  not_later now p →
  Pet.hunger (Nat.iter (S n) (decay now) p) =
    Z.max 0 (Pet.hunger p
             - Z.of_nat (S n) * Qfloor (hoursSince now (Pet.lastFed p) * 2)) ∧
  Pet.happiness (Nat.iter (S n) (decay now) p) =
    Z.max 0 (Pet.happiness p
             - Z.of_nat (S n)
               * Qfloor (hoursSince now (Pet.lastPlayed p) * (3 # 2))) ∧
  Pet.energy (Nat.iter (S n) (decay now) p) =
    Z.max 0 (Pet.energy p
             - Z.of_nat (S n) * Qfloor (hoursSince now (Pet.lastSlept p) * 1)).
Proof.
  intros (Hf & Hp & Hs).
  rewrite floor_hours_2, floor_hours_3_2, floor_hours_1.
  assert (0 ≤ (now - Pet.lastFed p) / 1800000) by (apply Z.div_pos; lia).
  assert (0 ≤ (now - Pet.lastPlayed p) / 2400000) by (apply Z.div_pos; lia).
  assert (0 ≤ (now - Pet.lastSlept p) / 3600000) by (apply Z.div_pos; lia).
  induction n as [| n IH].
  - change (Nat.iter 1 (decay now) p) with (decay now p).
    rewrite decay_hunger, decay_happiness, decay_energy. lia.
  - destruct IH as (IHh & IHp & IHe).
    destruct (decay_iter_timestamps now (S n) p) as (Tf & Tp & Ts).
    change (Nat.iter (S (S n)) (decay now) p)
      with (decay now (Nat.iter (S n) (decay now) p)).
    rewrite decay_hunger, decay_happiness, decay_energy.
    rewrite Tf, Tp, Ts, IHh, IHp, IHe. nia.
Qed.

Lemma decay_accumulates_witness :
  Pet.hunger (Nat.iter 3 (decay 3600000) (sample 100 100 100 100 0)) = 94.
Proof.
  destruct (decay_accumulates 3600000 2 (sample 100 100 100 100 0)) as (H & _).
  - unfold not_later; cbn; lia.
  - rewrite H. reflexivity.
Defined.

(** X8.  Decay is monotone in time: run at a later instant it leaves each of
    hunger, happiness and energy at most what a run at the earlier instant
    leaves; and on a pet whose last actions are not later than now and whose
    vitals are not negative it never raises a vital. *)
Theorem decay_monotone now1 now2 p :
  now1 ≤ now2 →
  Pet.hunger (decay now2 p) ≤ Pet.hunger (decay now1 p) ∧
  Pet.happiness (decay now2 p) ≤ Pet.happiness (decay now1 p) ∧
  Pet.energy (decay now2 p) ≤ Pet.energy (decay now1 p) ∧
  (not_later now1 p → vitals_nonneg p →
   Pet.hunger (decay now1 p) ≤ Pet.hunger p ∧
   Pet.happiness (decay now1 p) ≤ Pet.happiness p ∧
   Pet.energy (decay now1 p) ≤ Pet.energy p).
Proof.
  intros Hle. rewrite !decay_hunger, !decay_happiness, !decay_energy.
  assert ((now1 - Pet.lastFed p) / 1800000 ≤ (now2 - Pet.lastFed p) / 1800000)
    by (apply Z.div_le_mono; lia).
  assert ((now1 - Pet.lastPlayed p) / 2400000
          ≤ (now2 - Pet.lastPlayed p) / 2400000)
    by (apply Z.div_le_mono; lia).
  assert ((now1 - Pet.lastSlept p) / 3600000
          ≤ (now2 - Pet.lastSlept p) / 3600000)
    by (apply Z.div_le_mono; lia).
  split; [lia |]. split; [lia |]. split; [lia |].
  intros (Hf & Hp & Hs) (_ & Hh & Hha & He).
  assert (0 ≤ (now1 - Pet.lastFed p) / 1800000) by (apply Z.div_pos; lia).
  assert (0 ≤ (now1 - Pet.lastPlayed p) / 2400000) by (apply Z.div_pos; lia).
  assert (0 ≤ (now1 - Pet.lastSlept p) / 3600000) by (apply Z.div_pos; lia).
  lia.
Qed.

Lemma decay_monotone_witness :
  Pet.hunger (decay 7200000 (sample 100 100 100 100 0))
    ≤ Pet.hunger (decay 3600000 (sample 100 100 100 100 0)) ∧
  Pet.hunger (decay 3600000 (sample 100 100 100 100 0)) ≤ 100.
Proof.
  destruct (decay_monotone 3600000 7200000 (sample 100 100 100 100 0))
    as (H1 & _ & _ & H2); [lia |].
  split; [exact H1 |].
  apply H2; [unfold not_later | unfold vitals_nonneg]; cbn; lia.
Defined.

(** ** A pet's life *)

Lemma transition_sound t since now p :
  sound since p → since ≤ now → sound now (transition t now p).
Proof.
  intros (Hv & Hl & Hlev) Hle.
  assert (not_later now p) as Hl'
    by (unfold not_later in *; lia).
  split; [| split].
  - apply (proj1 vitals_in_range); auto.
  - unfold not_later in *. destruct t; cbn; lia.
  - destruct (decide (t = Feed)) as [-> | Hf]; [apply feed_level |].
    destruct (decide (t = Play)) as [-> | Hp]; [apply play_level |].
    destruct (rest_keeps_level t now p Hf Hp) as [-> ->]. exact Hlev.
Qed.

Lemma run_sound events :
  ∀ since p,
    sound since p → chronological since events →
    sound (last_time since events) (run p events).
Proof.
  induction events as [| [t now] events IH]; intros since p Hs Hc.
  - exact Hs.
  - destruct Hc as [Hle Hc]. cbn in Hle, Hc.
    apply (IH now (transition t now p)); [| exact Hc].
    now apply (transition_sound t since now p).
Qed.

Lemma run_experience events :
  ∀ p,
    Pet.experience (run p events) =
      Pet.experience p + 10 * count Feed events + 15 * count Play events.
Proof.
  unfold count.
  induction events as [| [t now] events IH]; intros p.
  - cbn. lia.
  - change (run p ((t, now) :: events))
      with (run (transition t now p) events).
    rewrite IH.
    destruct t; rewrite !filter_cons; cbn;
      repeat (case_decide; try congruence); cbn [length]; lia.
Qed.

Lemma run_keeps events :
  ∀ p,
    Pet.name (run p events) = Pet.name p ∧
    Pet.type (run p events) = Pet.type p ∧
    Pet.userId (run p events) = Pet.userId p ∧
    Pet.is_active (run p events) = Pet.is_active p ∧
    Pet.battlesWon (run p events) = Pet.battlesWon p ∧
    Pet.battlesLost (run p events) = Pet.battlesLost p.
Proof.
  induction events as [| [t now] events IH]; intros p.
  - repeat split.
  - change (run p ((t, now) :: events))
      with (run (transition t now p) events).
    destruct (IH (transition t now p)) as (-> & -> & -> & -> & -> & ->).
    destruct t; repeat split.
Qed.

(** X9.  From its creation on, whatever feeds, plays, sleeps, heals and
    decays follow, as long as the clock does not run backwards, a pet has its
    four vitals in [[0, 100]], its level equal to floor(experience / 100) + 1
    and at least 1, an experience of 10 per feed plus 15 per play, no
    last-action timestamp later than the last event, and the name, type,
    owner, active flag and battle counts it was created with. *)
Theorem pet_life dto fedAt playedAt sleptAt since events :
  fedAt ≤ since → playedAt ≤ since → sleptAt ≤ since →
  chronological since events →
  valid_vitals (run (new_Pet dto fedAt playedAt sleptAt) events) ∧
  Pet.level (run (new_Pet dto fedAt playedAt sleptAt) events)
    = Pet.experience (run (new_Pet dto fedAt playedAt sleptAt) events) / 100
      + 1 ∧
  1 ≤ Pet.level (run (new_Pet dto fedAt playedAt sleptAt) events) ∧
  Pet.experience (run (new_Pet dto fedAt playedAt sleptAt) events)
    = 10 * count Feed events + 15 * count Play events ∧
  not_later (last_time since events)
            (run (new_Pet dto fedAt playedAt sleptAt) events) ∧
  Pet.name (run (new_Pet dto fedAt playedAt sleptAt) events)
    = CreatePetDto.name dto ∧
  Pet.type (run (new_Pet dto fedAt playedAt sleptAt) events)
    = CreatePetDto.type dto ∧
  Pet.userId (run (new_Pet dto fedAt playedAt sleptAt) events)
    = CreatePetDto.userId dto ∧
  Pet.is_active (run (new_Pet dto fedAt playedAt sleptAt) events) = true ∧
  Pet.battlesWon (run (new_Pet dto fedAt playedAt sleptAt) events) = 0 ∧
  Pet.battlesLost (run (new_Pet dto fedAt playedAt sleptAt) events) = 0.
Proof.
  intros Hf Hp Hs Hc.
  set (p0 := new_Pet dto fedAt playedAt sleptAt).
  assert (sound since p0) as H0.
  { split; [| split].
    - unfold valid_vitals; cbn; lia.
    - unfold not_later; cbn; lia.
    - reflexivity. }
  destruct (run_sound events since p0 H0 Hc) as (Hv & Hl & Hlev).
  pose proof (run_experience events p0) as He.
  change (Pet.experience p0) with 0 in He.
  destruct (run_keeps events p0) as (Kn & Kt & Ku & Ka & Kw & Kl).
  assert (0 ≤ count Feed events ∧ 0 ≤ count Play events) as [Cf Cp]
    by (unfold count; lia).
  split; [exact Hv |]. split; [exact Hlev |].
  split.
  { rewrite Hlev, He.
    assert (0 ≤ (0 + 10 * count Feed events + 15 * count Play events) / 100)
      by (apply Z.div_pos; lia).
    lia. }
  split; [lia |]. split; [exact Hl |].
  rewrite Kn, Kt, Ku, Ka, Kw, Kl. repeat split.
Qed.

Lemma pet_life_witness :
  valid_vitals
    (run (new_Pet (CreatePetDto.mk "Tama" CAT "u1" None) 0 0 0)
         [(Play, 10); (Play, 20); (Decay, 7200000); (Feed, 7200000);
          (Sleep, 9000000); (Heal, 9000000)]) ∧
  Pet.experience
    (run (new_Pet (CreatePetDto.mk "Tama" CAT "u1" None) 0 0 0)
         [(Play, 10); (Play, 20); (Decay, 7200000); (Feed, 7200000);
          (Sleep, 9000000); (Heal, 9000000)]) = 40.
Proof.
  destruct (pet_life (CreatePetDto.mk "Tama" CAT "u1" None) 0 0 0 0
              [(Play, 10); (Play, 20); (Decay, 7200000); (Feed, 7200000);
               (Sleep, 9000000); (Heal, 9000000)])
    as (Hv & _ & _ & He & _); try lia.
  - cbn. lia.
  - split; [exact Hv | rewrite He; reflexivity].
Defined.

(** X10.  After feed, play, heal and decay the stored status is the
    classifier's answer on the four vitals the record now has.  It is not so
    at creation: a new pet is stored as active while the classifier calls its
    vitals (all 100) happy, and the first heal, which leaves the vitals as
    they are, turns the status to happy. *)
Theorem status_fresh :
  (∀ t now p,
     t ≠ Sleep →
     Pet.status (transition t now p) =
       calculatePetStatus (Pet.hunger (transition t now p))
                          (Pet.health (transition t now p))
                          (Pet.energy (transition t now p))
                          (Pet.happiness (transition t now p))) ∧
  (∀ dto fedAt playedAt sleptAt,
     Pet.status (new_Pet dto fedAt playedAt sleptAt) = ACTIVE ∧
     calculatePetStatus (Pet.hunger (new_Pet dto fedAt playedAt sleptAt))
                        (Pet.health (new_Pet dto fedAt playedAt sleptAt))
                        (Pet.energy (new_Pet dto fedAt playedAt sleptAt))
                        (Pet.happiness (new_Pet dto fedAt playedAt sleptAt))
       = HAPPY) ∧
  (∀ dto fedAt playedAt sleptAt now,
     Pet.status (heal now (new_Pet dto fedAt playedAt sleptAt)) = HAPPY ∧
     Pet.health (heal now (new_Pet dto fedAt playedAt sleptAt)) = 100 ∧
     Pet.hunger (heal now (new_Pet dto fedAt playedAt sleptAt)) = 100 ∧
     Pet.energy (heal now (new_Pet dto fedAt playedAt sleptAt)) = 100 ∧
     Pet.happiness (heal now (new_Pet dto fedAt playedAt sleptAt)) = 100).
Proof.
  split; [| split].
  - intros t now p Ht. destruct t; try congruence; reflexivity.
  - intros. split; reflexivity.
  - intros. repeat split.
Qed.

Lemma status_fresh_witness :
  Pet.status (transition Decay 7200000 (sample 31 50 50 50 0)) = HUNGRY.
Proof.
  rewrite (proj1 status_fresh Decay 7200000 (sample 31 50 50 50 0));
    [reflexivity | discriminate].
Defined.

(** ** Missing pets, deletion and creation *)

(** X11.  On an id that has the form of an ObjectId and is not stored,
    feedPet, playWithPet, sleepPet, healPet and getPetStats throw
    NotFoundException("Pet not found"), while findById, update and delete
    return null and leave the store as it is: update never creates a
    document. *)
Theorem missing_pet now id dto (db : gmap string Pet.t) :
  isObjectId id = true →
  db !! id = None →
  feedPet now id db = inl (NotFoundException "Pet not found") ∧
  playWithPet now id db = inl (NotFoundException "Pet not found") ∧
  sleepPet now id db = inl (NotFoundException "Pet not found") ∧
  healPet id db = inl (NotFoundException "Pet not found") ∧
  getPetStats id db = inl (NotFoundException "Pet not found") ∧
  findById id db = inr (None, db) ∧
  update id dto db = inr (None, db) ∧
  PetsService.delete id db = inr (None, db).
Proof.
  intros _ Hp.
  destruct (action_not_found now id db Hp) as (-> & -> & -> & ->).
  repeat split.
  - unfold getPetStats, mbind, Service_bind, findById. now rewrite Hp.
  - unfold findById. now rewrite Hp.
  - unfold update. now rewrite Hp, alter_id'.
  - unfold PetsService.delete. now rewrite Hp, delete_id.
Qed.

Lemma missing_pet_witness :
  feedPet 0 "507f191e810c19729de860ea"
          {[ "507f1f77bcf86cd799439011" := retired ]}
    = inl (NotFoundException "Pet not found") ∧
  update "507f191e810c19729de860ea" (feedPet_update 0 retired)
         {[ "507f1f77bcf86cd799439011" := retired ]}
    = inr (None, {[ "507f1f77bcf86cd799439011" := retired ]}).
Proof.
  destruct (missing_pet 0 "507f191e810c19729de860ea" (feedPet_update 0 retired)
              {[ "507f1f77bcf86cd799439011" := retired ]})
    as (Hf & _ & _ & _ & _ & _ & Hu & _); [reflexivity | reflexivity |].
  split; [exact Hf | exact Hu].
Defined.

(** X12.  delete returns the stored pet and removes it and nothing else:
    afterwards findById gives null for the id and every action on it throws,
    a second delete returns null, the other pets are stored as before, and
    the batch decay does not bring the pet back. *)
Theorem delete_removes now id p (db : gmap string Pet.t) :
  db !! id = Some p →
  ∃ db' : gmap string Pet.t,
    PetsService.delete id db = inr (Some p, db') ∧
    findById id db' = inr (None, db') ∧
    feedPet now id db' = inl (NotFoundException "Pet not found") ∧
    playWithPet now id db' = inl (NotFoundException "Pet not found") ∧
    sleepPet now id db' = inl (NotFoundException "Pet not found") ∧
    healPet id db' = inl (NotFoundException "Pet not found") ∧
    PetsService.delete id db' = inr (None, db') ∧
    (∀ j, j ≠ id → db' !! j = db !! j) ∧
    (∃ db'' : gmap string Pet.t,
       updatePetStatsOverTime now db' = inr ((), db'') ∧ db'' !! id = None).
Proof.
  intros Hp. exists (base.delete id db).
  assert (base.delete id db !! id = None) as Hgone by apply lookup_delete_eq.
  destruct (action_not_found now id _ Hgone) as (-> & -> & -> & ->).
  split; [unfold PetsService.delete; now rewrite Hp |].
  split; [unfold findById; now rewrite Hgone |].
  repeat split.
  - unfold PetsService.delete. now rewrite Hgone, delete_id.
  - intros j Hj. now apply lookup_delete_ne.
  - exists (decay now <$> base.delete id db). split.
    + apply updatePetStatsOverTime_all.
    + now rewrite lookup_fmap, Hgone.
Qed.

Lemma delete_removes_witness :
  ∃ db' : gmap string Pet.t,
    PetsService.delete "a" {[ "a" := retired ]} = inr (Some retired, db') ∧
    feedPet 0 "a" db' = inl (NotFoundException "Pet not found").
Proof.
  destruct (delete_removes 0 "a" retired {[ "a" := retired ]})
    as (db' & Hd & _ & Hf & _); [reflexivity |].
  exists db'. split; [exact Hd | exact Hf].
Defined.



(** ** Updates and the validators of the DTO *)

Lemma IsOptional_Min_Some n v : IsOptional_Min n (Some v) = true ↔ n ≤ v.
Proof. apply bool_decide_eq_true. Qed.

Lemma IsOptional_Max_Some n v : IsOptional_Max n (Some v) = true ↔ v ≤ n.
Proof. apply bool_decide_eq_true. Qed.

Lemma validate_UpdatePetDto_true dto :
  validate_UpdatePetDto dto = true →
  IsOptional_Min 1 (UpdatePetDto.level dto) = true ∧
  IsOptional_Min 0 (UpdatePetDto.experience dto) = true ∧
  (IsOptional_Min 0 (UpdatePetDto.health dto) = true ∧
   IsOptional_Max 100 (UpdatePetDto.health dto) = true) ∧
  (IsOptional_Min 0 (UpdatePetDto.hunger dto) = true ∧
   IsOptional_Max 100 (UpdatePetDto.hunger dto) = true) ∧
  (IsOptional_Min 0 (UpdatePetDto.happiness dto) = true ∧
   IsOptional_Max 100 (UpdatePetDto.happiness dto) = true) ∧
  (IsOptional_Min 0 (UpdatePetDto.energy dto) = true ∧
   IsOptional_Max 100 (UpdatePetDto.energy dto) = true).
Proof.
  unfold validate_UpdatePetDto. rewrite !andb_true_iff. tauto.
Qed.

Lemma range_kept lo hi x v :
  IsOptional_Min lo x = true → IsOptional_Max hi x = true →
  lo ≤ v ≤ hi → lo ≤ default v x ≤ hi.
Proof.
  destruct x as [y |]; cbn; [| auto].
  rewrite !bool_decide_eq_true. lia.
Qed.

(** X14.  An update whose DTO passes the validators of [UpdatePetDto] keeps
    the four vitals of a pet in [[0, 100]], its level at least 1 and its
    experience not negative; but it can set the level apart from the
    experience (as the README's example [{ level: 2 }] does on a new pet). *)
Theorem validated_update dto p :
  validate_UpdatePetDto dto = true →
  (valid_vitals p → valid_vitals (set_fields dto p)) ∧
  (1 ≤ Pet.level p → 1 ≤ Pet.level (set_fields dto p)) ∧
  (0 ≤ Pet.experience p → 0 ≤ Pet.experience (set_fields dto p)) ∧
  (UpdatePetDto.level dto = Some 2 → UpdatePetDto.experience dto = None →
   Pet.experience p = 0 →
   Pet.level (set_fields dto p) ≠ Pet.experience (set_fields dto p) / 100 + 1).
Proof.
  intros Hv.
  destruct (validate_UpdatePetDto_true dto Hv)
    as (Hl & He & (Hh1 & Hh2) & (Hu1 & Hu2) & (Ha1 & Ha2) & (Hn1 & Hn2)).
  split; [| split; [| split]].
  - intros (H1 & H2 & H3 & H4). unfold valid_vitals. cbn.
    split; [| split; [| split]]; now apply range_kept.
  - intros H. cbn. destruct (UpdatePetDto.level dto); cbn in *; [| exact H].
    now apply bool_decide_eq_true in Hl.
  - intros H. cbn. destruct (UpdatePetDto.experience dto); cbn in *; [| exact H].
    now apply bool_decide_eq_true in He.
  - intros E1 E2 E3. cbn. rewrite E1, E2, E3. cbn. discriminate.
Qed.

Lemma validated_update_witness :
  valid_vitals
    (set_fields
       (UpdatePetDto.mk None None (Some 2) None (Some 40) None None None
                        None None None None None None None None)
       (sample 100 100 100 100 0)) ∧
  Pet.level
    (set_fields
       (UpdatePetDto.mk None None (Some 2) None (Some 40) None None None
                        None None None None None None None None)
       (sample 100 100 100 100 0)) = 2.
Proof.
  destruct (validated_update
              (UpdatePetDto.mk None None (Some 2) None (Some 40) None None None
                               None None None None None None None None)
              (sample 100 100 100 100 0)) as (Hv & _); [reflexivity |].
  split; [| reflexivity].
  apply Hv. unfold valid_vitals; cbn; lia.
Defined.

(** X15.  What the service itself sends to update passes the validators of
    [UpdatePetDto]: for a pet with vitals in [[0, 100]] and an experience that
    is not negative, the updates of feed, play, sleep and heal do, and the
    update of the decay loop does when no last-action timestamp is later
    than now. *)
Theorem service_updates_validate now p :
  valid_vitals p → 0 ≤ Pet.experience p →
  validate_UpdatePetDto (feedPet_update now p) = true ∧
  validate_UpdatePetDto (playWithPet_update now p) = true ∧
  validate_UpdatePetDto (sleepPet_update now p) = true ∧
  validate_UpdatePetDto (healPet_update p) = true ∧
  (not_later now p →
   validate_UpdatePetDto (updatePetStatsOverTime_update now p) = true).
Proof.
  intros (H1 & H2 & H3 & H4) He.
  assert (0 ≤ (Pet.experience p + 10) / 100) by (apply Z.div_pos; lia).
  assert (0 ≤ (Pet.experience p + 15) / 100) by (apply Z.div_pos; lia).
  unfold validate_UpdatePetDto.
  split; [| split; [| split; [| split]]].
  - cbn -[floor_div]. rewrite floor_div_100, !andb_true_iff, !bool_decide_eq_true.
    repeat split; lia.
  - cbn -[floor_div]. rewrite floor_div_100, !andb_true_iff, !bool_decide_eq_true.
    repeat split; lia.
  - cbn. rewrite !andb_true_iff, !bool_decide_eq_true. repeat split; lia.
  - cbn. rewrite !andb_true_iff, !bool_decide_eq_true. repeat split; lia.
  - intros (Hf & Hp & Hs).
    cbn -[Qfloor hoursSince].
    rewrite floor_hours_2, floor_hours_3_2, floor_hours_1.
    assert (0 ≤ (now - Pet.lastFed p) / 1800000) by (apply Z.div_pos; lia).
    assert (0 ≤ (now - Pet.lastPlayed p) / 2400000) by (apply Z.div_pos; lia).
    assert (0 ≤ (now - Pet.lastSlept p) / 3600000) by (apply Z.div_pos; lia).
    rewrite !andb_true_iff, !bool_decide_eq_true. repeat split; lia.
Qed.

Lemma service_updates_validate_witness :
  validate_UpdatePetDto (feedPet_update 5 (sample 90 50 50 95 95)) = true ∧
  validate_UpdatePetDto
    (updatePetStatsOverTime_update 7200000 (sample 90 50 50 95 95)) = true.
Proof.
  destruct (service_updates_validate 5 (sample 90 50 50 95 95))
    as (Hf & _); [unfold valid_vitals; cbn; lia | cbn; lia |].
  destruct (service_updates_validate 7200000 (sample 90 50 50 95 95))
    as (_ & _ & _ & _ & Hd); [unfold valid_vitals; cbn; lia | cbn; lia |].
  split; [exact Hf |].
  apply Hd. unfold not_later; cbn; lia.
Defined.

(** ** The routes *)

(** X16.  No request reaches the handler [getTypes]: its route
    [@Get('types')] is registered after [@Get(':id')], which matches every
    one-segment GET path first, so GET /pets/types is handled by [findOne]
    with the id "types".  The routes with a second segment are reached:
    GET /pets/<id>/stats goes to [getStats] (for an id other than "user") and
    POST /pets/<id>/feed to [feed]. *)
Theorem getTypes_unreachable :
  (∀ m path params,
     PetsController.dispatch m path ≠ Some (PetsController.getTypes, params)) ∧
  PetsController.dispatch PetsController.GET ["types"]
    = Some (PetsController.findOne, [("id", "types")]) ∧
  (∀ id,
     id ≠ "" → PetsController.lower id ≠ "user" →
     PetsController.dispatch PetsController.GET [id; "stats"]
       = Some (PetsController.getStats, [("id", id)])) ∧
  (∀ id,
     id ≠ "" →
     PetsController.dispatch PetsController.POST [id; "feed"]
       = Some (PetsController.feed, [("id", id)])).
Proof.
  split; [| split; [reflexivity | split]].
  - intros m path params.
    unfold PetsController.dispatch, PetsController.routes.
    destruct m; destruct path as [| a [| b [| c path]]]; cbn;
      repeat case_decide; subst; cbn in *; congruence.
  - intros id Hid Hu.
    unfold PetsController.dispatch, PetsController.routes.
    cbn -[PetsController.lower].
    change (PetsController.lower "user") with "user".
    repeat case_decide; subst; try congruence; reflexivity.
  - intros id Hid.
    unfold PetsController.dispatch, PetsController.routes.
    cbn -[PetsController.lower].
    repeat case_decide; subst; try congruence; reflexivity.
Qed.

Lemma getTypes_unreachable_witness :
  PetsController.dispatch PetsController.GET ["64b7f0c2"; "stats"]
    = Some (PetsController.getStats, [("id", "64b7f0c2")]) ∧
  PetsController.dispatch PetsController.POST ["64b7f0c2"; "feed"]
    = Some (PetsController.feed, [("id", "64b7f0c2")]).
Proof.
  destruct getTypes_unreachable as (_ & _ & Hs & Hf).
  split; [apply Hs | apply Hf]; discriminate.
Defined.

(** * Properties of the logging interceptor *)

Section Sanitize.

Import LoggingInterceptor.

Lemma masked_twice v : masked (masked v) = masked v.
Proof. unfold masked. destruct (truthy v) eqn:E; [reflexivity | now rewrite E]. Qed.

(** One round of the loop, for the field [field]. *)
Lemma sanitize_step (sanitized : gmap string JSON) field k :
  match sanitized !! field with
  | Some v =>
      if truthy v then <[field := JString "***"]> sanitized else sanitized
  | None => sanitized
  end !! k
  = if decide (k = field) then masked <$> sanitized !! k else sanitized !! k.
Proof.
  destruct (decide (k = field)) as [-> | Hne].
  - destruct (sanitized !! field) as [v |] eqn:E; [| now rewrite E].
    cbn. unfold masked. destruct (truthy v).
    + now rewrite lookup_insert_eq.
    + exact E.
  - destruct (sanitized !! field) as [v |]; [| reflexivity].
    destruct (truthy v); [| reflexivity].
    now rewrite lookup_insert_ne.
Qed.

Lemma sanitize_loop fields :
  ∀ (body : gmap string JSON) k,
    foldl (λ (sanitized : gmap string JSON) field,
             match sanitized !! field with
             | Some v =>
                 if truthy v then <[field := JString "***"]> sanitized
                 else sanitized
             | None => sanitized
             end) body fields !! k
    = if decide (k ∈ fields) then masked <$> body !! k else body !! k.
Proof.
  induction fields as [| f fields IH]; intros body k.
  - cbn. case_decide as H; [| reflexivity]. now apply not_elem_of_nil in H.
  - cbn [foldl]. rewrite IH, sanitize_step.
    destruct (decide (k = f)) as [-> | Hne].
    + rewrite (decide_True (P := f ∈ f :: fields)) by left.
      case_decide; [| reflexivity].
      destruct (body !! f); cbn; [| reflexivity]. now rewrite masked_twice.
    + destruct (decide (k ∈ fields)) as [Hin | Hnin].
      * now rewrite (decide_True (P := k ∈ f :: fields)) by now right.
      * rewrite (decide_False (P := k ∈ f :: fields)); [reflexivity |].
        intros [-> | H]%elem_of_cons; [now apply Hne | now apply Hnin].
Qed.

Lemma sanitizeRequestBody_masks_aux (body : gmap string JSON) :
  ∃ sanitized : gmap string JSON,
    sanitizeRequestBody (Some body) = Some sanitized ∧
    ∀ k, sanitized !! k
         = if decide (k ∈ sensitiveFields) then masked <$> body !! k
           else body !! k.
Proof.
  eexists. split; [reflexivity |]. intros k. apply sanitize_loop.
Qed.

(** X17.  [sanitizeRequestBody] keeps the keys of the body and the value of
    every field but the four top-level fields password, token, secret and
    authorization; of these, a value that counts as true becomes "***" and
    one that counts as false (null, false, 0, the empty string) stays.  So
    what is left under a sensitive key is "***" or counts as false; a field
    under any other key, an object with a password inside it included, is
    passed on as it came. *)
Theorem sanitizeRequestBody_masks (body : gmap string JSON) :
  ∃ sanitized : gmap string JSON,
    sanitizeRequestBody (Some body) = Some sanitized ∧
    dom sanitized = dom body ∧
    (∀ k, k ∉ sensitiveFields → sanitized !! k = body !! k) ∧
    (∀ k, k ∈ sensitiveFields → sanitized !! k = masked <$> body !! k) ∧
    (∀ k v, k ∈ sensitiveFields → sanitized !! k = Some v →
            v = JString "***" ∨ truthy v = false).
Proof.
  eexists. split; [reflexivity |].
  split; [| split; [| split]].
  - apply set_eq. intros k. rewrite !elem_of_dom, sanitize_loop.
    case_decide; [| reflexivity]. now rewrite fmap_is_Some.
  - intros k Hk. rewrite sanitize_loop. now rewrite decide_False.
  - intros k Hk. rewrite sanitize_loop. now rewrite decide_True.
  - intros k v Hk. rewrite sanitize_loop, decide_True by exact Hk.
    destruct (body !! k) as [w |]; cbn; [| discriminate].
    intros [= <-]. unfold masked.
    destruct (truthy w) eqn:E; [now left | now right].
Qed.

Lemma sanitizeRequestBody_masks_witness :
  ∃ sanitized : gmap string JSON,
    sanitizeRequestBody
      (Some {[ "password" := JString "hunter2";
               "user" := JObject [("password", JString "hunter2")] ]})
      = Some sanitized ∧
    sanitized !! "password" = Some (JString "***") ∧
    sanitized !! "user" = Some (JObject [("password", JString "hunter2")]).
Proof.
  destruct (sanitizeRequestBody_masks
              {[ "password" := JString "hunter2";
                 "user" := JObject [("password", JString "hunter2")] ]})
    as (s & Hs & _ & Ho & Hm & _).
  exists s. split; [exact Hs |]. split.
  - rewrite Hm; [reflexivity |]. now left.
  - rewrite Ho; [reflexivity |].
    intros H. unfold sensitiveFields in H.
    repeat (apply elem_of_cons in H as [H | H]; [discriminate H |]).
    now apply not_elem_of_nil in H.
Defined.

(** X18.  Sanitizing is idempotent, and a missing body stays missing. *)
Theorem sanitizeRequestBody_idempotent body :
  sanitizeRequestBody (sanitizeRequestBody body) = sanitizeRequestBody body ∧
  sanitizeRequestBody None = None.
Proof.
  split; [| reflexivity].
  destruct body as [body |]; [| reflexivity].
  destruct (sanitizeRequestBody_masks_aux body) as (s & -> & Hs).
  destruct (sanitizeRequestBody_masks_aux s) as (s' & -> & Hs').
  f_equal. apply map_eq. intros k. rewrite Hs', Hs.
  case_decide; [| reflexivity].
  destruct (body !! k); cbn; [| reflexivity]. now rewrite masked_twice.
Qed.

End Sanitize.

(** * Properties of the users module *)

Section Users.

Import UsersService.

Context (hash : string → string) (compare : string → string → bool).

Lemma findOne_Some f (db : gmap string User.t) id u :
  findOne f db = Some (id, u) → db !! id = Some u ∧ f u = true.
Proof.
  unfold findOne.
  destruct (list_find _ (map_to_list db)) as [[i d] |] eqn:E; [| discriminate].
  cbn. intros [= ->]. apply list_find_Some in E as (Hl & Hd & _).
  split; [| exact Hd].
  apply elem_of_map_to_list. eapply list_elem_of_lookup_2. exact Hl.
Qed.

Lemma findOne_None f (db : gmap string User.t) :
  findOne f db = None ↔ ∀ id u, db !! id = Some u → f u = false.
Proof.
  unfold findOne. split.
  - destruct (list_find _ (map_to_list db)) eqn:E; [discriminate |].
    intros _ id u Hu. apply list_find_None in E.
    rewrite Forall_forall in E.
    specialize (E (id, u)). cbn in E.
    destruct (f u); [| reflexivity].
    exfalso. apply E; [| reflexivity]. now apply elem_of_map_to_list.
  - intros H. destruct (list_find _ (map_to_list db)) as [[i [id u]] |] eqn:E;
      [| reflexivity].
    apply list_find_Some in E as (Hl & Hd & _). cbn in Hd.
    apply list_elem_of_lookup_2, elem_of_map_to_list in Hl.
    rewrite (H id u Hl) in Hd. discriminate.
Qed.

Lemma findOne_only f (db : gmap string User.t) id u :
  db !! id = Some u → f u = true →
  (∀ j v, db !! j = Some v → f v = true → j = id) →
  findOne f db = Some (id, u).
Proof.
  intros Hu Hf Honly.
  destruct (findOne f db) as [[j v] |] eqn:E.
  - apply findOne_Some in E as (Hv & Hfv).
    assert (j = id) as -> by now apply (Honly j v).
    rewrite Hu in Hv. now injection Hv as ->.
  - rewrite findOne_None in E. rewrite (E id u Hu) in Hf. discriminate.
Qed.

Lemma taken_None field id (db : gmap string User.t) :
  taken field None id db = false.
Proof. reflexivity. Qed.

(** What the update of the two counters comes to on a stored user. *)
Lemma update_counters id u (db : gmap string User.t) level experience coins :
  db !! id = Some u →
  update hash id
    {| PartialUser.username := None; PartialUser.email := None;
       PartialUser.password := None; PartialUser.level := level;
       PartialUser.experience := experience; PartialUser.coins := coins;
       PartialUser.isActive := None; PartialUser.lastLoginAt := None;
       PartialUser.createdAt := None; PartialUser.avatar := None |} db
  = inr (Some (without_password
                 (set_fields
                    {| PartialUser.username := None; PartialUser.email := None;
                       PartialUser.password := None; PartialUser.level := level;
                       PartialUser.experience := experience;
                       PartialUser.coins := coins;
                       PartialUser.isActive := None;
                       PartialUser.lastLoginAt := None;
                       PartialUser.createdAt := None;
                       PartialUser.avatar := None |} u)),
         <[id := set_fields
                   {| PartialUser.username := None; PartialUser.email := None;
                      PartialUser.password := None; PartialUser.level := level;
                      PartialUser.experience := experience;
                      PartialUser.coins := coins;
                      PartialUser.isActive := None;
                      PartialUser.lastLoginAt := None;
                      PartialUser.createdAt := None;
                      PartialUser.avatar := None |} u]> db).
Proof. intros Hu. unfold update. cbn. now rewrite Hu. Qed.

(** X19.  addCoins never leaves a negative balance: the stored coins become
    max(0, coins + amount), so spending more than the user has empties the
    account instead of failing.  Nothing else of the user changes, the
    stored password included; the object returned carries no password; and
    for an id of the form of an ObjectId that is not stored the answer is
    null and the store is left alone. *)
Theorem addCoins_floor id amount (db : gmap string User.t) :
  (∀ u, db !! id = Some u →
     ∃ u' : User.t,
       addCoins hash id amount db
         = inr (Some (without_password u'), <[id := u']> db) ∧
       User.coins u' = Z.max 0 (User.coins u + amount) ∧
       0 ≤ User.coins u' ∧
       User.password u' = User.password u ∧
       User.username u' = User.username u ∧ User.email u' = User.email u ∧
       User.level u' = User.level u ∧
       User.experience u' = User.experience u ∧
       User.isActive u' = User.isActive u ∧
       User.lastLoginAt u' = User.lastLoginAt u ∧
       User.createdAt u' = User.createdAt u ∧
       User.avatar u' = User.avatar u) ∧
  (isObjectId id = true → db !! id = None →
   addCoins hash id amount db = inr (None, db)).
Proof.
  split.
  - intros u Hu. eexists. split.
    + unfold addCoins, mbind, Service_bind, findById. rewrite Hu.
      exact (update_counters id u db None None
               (Some (Z.max 0 (User.coins u + amount))) Hu).
    + cbn. destruct (User.lastLoginAt u), (User.avatar u), (User.password u);
        repeat split; lia.
  - intros _ Hu. unfold addCoins, mbind, Service_bind, findById.
    now rewrite Hu.
Qed.

(** X20.  addExperience stores the new experience and the level
    floor(new experience / 100) + 1 computed from it; the amount is not
    checked, so the level is at least 1 exactly when the new experience is
    not negative.  For an id of the form of an ObjectId that is not stored
    the answer is null. *)
Theorem addExperience_level id amount (db : gmap string User.t) :
  (∀ u, db !! id = Some u →
     ∃ u' : User.t,
       addExperience hash id amount db
         = inr (Some (without_password u'), <[id := u']> db) ∧
       User.experience u' = User.experience u + amount ∧
       User.level u' = User.experience u' / 100 + 1 ∧
       (1 ≤ User.level u' ↔ 0 ≤ User.experience u + amount) ∧
       User.coins u' = User.coins u ∧
       User.password u' = User.password u) ∧
  (isObjectId id = true → db !! id = None →
   addExperience hash id amount db = inr (None, db)).
Proof.
  clear compare. split.
  - intros u Hu. eexists. split.
    + unfold addExperience, mbind, Service_bind, findById. rewrite Hu.
      exact (update_counters id u db
               (Some (floor_div (User.experience u + amount) 100 + 1))
               (Some (User.experience u + amount)) None Hu).
    + cbn -[floor_div]. rewrite floor_div_100.
      destruct (User.password u); repeat split; try reflexivity.
      * intros H. Z.div_mod_to_equations. lia.
      * intros H.
        assert (0 ≤ (User.experience u + amount) / 100)
          by (apply Z.div_pos; lia). lia.
      * intros H. Z.div_mod_to_equations. lia.
      * intros H.
        assert (0 ≤ (User.experience u + amount) / 100)
          by (apply Z.div_pos; lia). lia.
  - intros _ Hu. unfold addExperience, mbind, Service_bind, findById.
    now rewrite Hu.
Qed.

Lemma update_returns id data (db db' : gmap string User.t) v :
  update hash id data db = inr (Some v, db') → User.password v = None.
Proof.
  unfold update. destruct (db !! id); [| discriminate].
  destruct (_ || _); [discriminate |].
  intros [= <- _]. reflexivity.
Qed.

(** X21.  findById, findAll, update, addExperience, addCoins and login never
    hand out a password: every user object they return has the property
    removed.  findByEmail and findByUsername do: what they return is the
    stored document itself, password hash included. *)
Theorem password_exposure :
  (∀ id (db db' : gmap string User.t) v,
     findById id db = inr (Some v, db') → User.password v = None) ∧
  (∀ (db db' : gmap string User.t) l v,
     findAll db = inr (l, db') → v ∈ l → User.password v = None) ∧
  (∀ id data (db db' : gmap string User.t) v,
     update hash id data db = inr (Some v, db') → User.password v = None) ∧
  (∀ id amount (db db' : gmap string User.t) v,
     addExperience hash id amount db = inr (Some v, db') →
     User.password v = None) ∧
  (∀ id amount (db db' : gmap string User.t) v,
     addCoins hash id amount db = inr (Some v, db') →
     User.password v = None) ∧
  (∀ now data (db db' : gmap string User.t) v,
     login compare now data db = inr (v, db') → User.password v = None) ∧
  (∀ email (db db' : gmap string User.t) u,
     findByEmail email db = inr (Some u, db') →
     User.email u = email ∧ ∃ id, db !! id = Some u) ∧
  (∀ username (db db' : gmap string User.t) u,
     findByUsername username db = inr (Some u, db') →
     User.username u = username ∧ ∃ id, db !! id = Some u).
Proof.
  repeat split.
  - intros id db db' v. unfold findById.
    destruct (db !! id); cbn; intros [= <- _]; reflexivity.
  - intros db db' l v. unfold findAll. intros [= <- _] Hv.
    apply list_elem_of_fmap in Hv as (u & -> & _). reflexivity.
  - intros id data db db' v. apply update_returns.
  - intros id amount db db' v.
    unfold addExperience, mbind, Service_bind, findById.
    destruct (db !! id); cbn -[update floor_div]; [apply update_returns |].
    discriminate.
  - intros id amount db db' v.
    unfold addCoins, mbind, Service_bind, findById.
    destruct (db !! id); cbn -[update]; [apply update_returns |].
    discriminate.
  - intros now data db db' v. unfold login.
    destruct (findOne _ db) as [[id u] |]; [| discriminate].
    destruct (User.isActive u); [| discriminate]. cbn.
    destruct (User.password u); [| discriminate].
    destruct (compare _ _); [| discriminate]. cbn.
    intros [= <- _]. reflexivity.
  - unfold findByEmail in H.
    destruct (findOne _ db) as [[id u'] |] eqn:E; [| discriminate].
    injection H as -> _. apply findOne_Some in E as (_ & E).
    now apply bool_decide_eq_true in E.
  - unfold findByEmail in H.
    destruct (findOne _ db) as [[id u'] |] eqn:E; [| discriminate].
    injection H as -> _. apply findOne_Some in E as (E & _). now exists id.
  - unfold findByUsername in H.
    destruct (findOne _ db) as [[id u'] |] eqn:E; [| discriminate].
    injection H as -> _. apply findOne_Some in E as (_ & E).
    now apply bool_decide_eq_true in E.
  - unfold findByUsername in H.
    destruct (findOne _ db) as [[id u'] |] eqn:E; [| discriminate].
    injection H as -> _. apply findOne_Some in E as (E & _). now exists id.
Qed.

Lemma unique_insert field id user (db : gmap string User.t) :
  db !! id = None → unique field db →
  (∀ j u, db !! j = Some u → field u ≠ field user) →
  unique field (<[id := user]> db).
Proof.
  intros Hfresh Hu Hnew i j u v Hi Hj Hf.
  destruct (decide (i = id)) as [-> | Hni], (decide (j = id)) as [-> | Hnj].
  - reflexivity.
  - rewrite lookup_insert_eq in Hi. injection Hi as <-.
    rewrite lookup_insert_ne in Hj by congruence.
    exfalso. now apply (Hnew j v Hj).
  - rewrite lookup_insert_eq in Hj. injection Hj as <-.
    rewrite lookup_insert_ne in Hi by congruence.
    exfalso. now apply (Hnew i u Hi).
  - rewrite lookup_insert_ne in Hi, Hj by congruence.
    now apply (Hu i j u v).
Qed.

(** create with the email and the username free. *)
Lemma create_free id now data (db : gmap string User.t) :
  (∀ j u, db !! j = Some u → User.email u ≠ RegisterDto.email data) →
  (∀ j u, db !! j = Some u → User.username u ≠ RegisterDto.username data) →
  create hash id now data db
  = if negb (required
               (new_userModel now data (hash (RegisterDto.password data))))
    then inl (Error "User validation failed")
    else match db !! id with
         | Some _ => inl (Error "E11000 duplicate key error")
         | None =>
             inr (new_userModel now data (hash (RegisterDto.password data)),
                  <[id := new_userModel now data
                            (hash (RegisterDto.password data))]> db)
         end.
Proof.
  intros He Hn.
  unfold create, mbind, Service_bind, findByEmail, findByUsername.
  rewrite (proj2 (findOne_None _ db)).
  2:{ intros k v Hv. apply bool_decide_eq_false. now apply (He k v). }
  cbn. rewrite (proj2 (findOne_None _ db)).
  2:{ intros k v Hv. apply bool_decide_eq_false. now apply (Hn k v). }
  cbn. now destruct (required _).
Qed.

Lemma required_new now data pw :
  RegisterDto.username data ≠ "" → RegisterDto.email data ≠ "" → pw ≠ "" →
  required (new_userModel now data pw) = true.
Proof.
  intros H1 H2 H3. unfold required, new_userModel. cbn.
  now rewrite !bool_decide_eq_false_2.
Qed.

(** X22.  create checks the email first and the username second: a stored
    user with the same email gives UnauthorizedException("Email already
    exists"), otherwise one with the same username gives "Username already
    exists".  With both free, neither of them empty and the id new, the user
    is stored under the id with the hash of the password, never the password
    itself; the body is not validated, so level, experience, coins, the
    active flag, lastLoginAt, createdAt and avatar are the body's where it
    carries them, and otherwise the defaults 1, 0, 1000, active, unset, now
    and unset; and if emails and usernames were unique in the store, they
    still are.  With both free and one of them empty nothing is stored. *)
Theorem create_checks id now data (db : gmap string User.t) :
  (∀ j u, db !! j = Some u → User.email u = RegisterDto.email data →
     create hash id now data db
       = inl (UnauthorizedException "Email already exists")) ∧
  ((∀ j u, db !! j = Some u → User.email u ≠ RegisterDto.email data) →
   ∀ j u, db !! j = Some u → User.username u = RegisterDto.username data →
     create hash id now data db
       = inl (UnauthorizedException "Username already exists")) ∧
  ((∀ j u, db !! j = Some u → User.email u ≠ RegisterDto.email data) →
   (∀ j u, db !! j = Some u → User.username u ≠ RegisterDto.username data) →
   RegisterDto.username data ≠ "" → RegisterDto.email data ≠ "" →
   hash (RegisterDto.password data) ≠ "" →
   db !! id = None →
   ∃ user : User.t,
     create hash id now data db = inr (user, <[id := user]> db) ∧
     User.password user = Some (hash (RegisterDto.password data)) ∧
     User.username user = RegisterDto.username data ∧
     User.email user = RegisterDto.email data ∧
     User.level user = default 1 (RegisterDto.level data) ∧
     User.experience user = default 0 (RegisterDto.experience data) ∧
     User.coins user = default 1000 (RegisterDto.coins data) ∧
     User.isActive user = default true (RegisterDto.isActive data) ∧
     User.lastLoginAt user = RegisterDto.lastLoginAt data ∧
     User.createdAt user = default now (RegisterDto.createdAt data) ∧
     User.avatar user = RegisterDto.avatar data ∧
     (unique User.email db → unique User.username db →
      unique User.email (<[id := user]> db) ∧
      unique User.username (<[id := user]> db))) ∧
  ((∀ j u, db !! j = Some u → User.email u ≠ RegisterDto.email data) →
   (∀ j u, db !! j = Some u → User.username u ≠ RegisterDto.username data) →
   RegisterDto.username data = "" ∨ RegisterDto.email data = "" →
   create hash id now data db = inl (Error "User validation failed")).
Proof.
  assert (∀ (f : User.t → bool),
            (∀ j u, db !! j = Some u → f u = false) → findOne f db = None)
    as Hnone by (intros f; apply findOne_None).
  split; [| split; [| split]].
  - intros j u Hu He.
    unfold create, mbind, Service_bind, findByEmail.
    destruct (findOne _ db) as [d |] eqn:E; [reflexivity |].
    rewrite findOne_None in E. specialize (E j u Hu).
    apply bool_decide_eq_false in E. contradiction.
  - intros Hfree j u Hu Hn.
    unfold create, mbind, Service_bind, findByEmail, findByUsername.
    rewrite Hnone.
    2:{ intros k v Hv. apply bool_decide_eq_false. now apply (Hfree k v). }
    cbn.
    destruct (findOne _ db) as [d |] eqn:E; [reflexivity |].
    rewrite findOne_None in E. specialize (E j u Hu).
    apply bool_decide_eq_false in E. contradiction.
  - intros He Hn Hu Hm Hh Hid. eexists. split.
    + rewrite (create_free id now data db He Hn).
      rewrite (required_new now data _ Hu Hm Hh), Hid. reflexivity.
    + repeat split.
      * apply unique_insert; auto.
      * apply unique_insert; auto.
  - intros He Hn Hempty.
    rewrite (create_free id now data db He Hn).
    assert (required (new_userModel now data
                        (hash (RegisterDto.password data))) = false) as ->;
      [| reflexivity].
    unfold required, new_userModel. cbn.
    destruct Hempty as [-> | ->]; cbn.
    + reflexivity.
    + now rewrite andb_false_r.
Qed.

Lemma login_found now data (db : gmap string User.t) id u h :
  findOne (λ v, bool_decide (User.email v = LoginDto.email data)) db
    = Some (id, u) →
  User.isActive u = true → User.password u = Some h →
  compare (LoginDto.password data) h = true →
  ∃ db' : gmap string User.t,
    login compare now data db = inr (without_password u, db') ∧
    (∀ u0, db !! id = Some u0 →
       ∃ u', db' !! id = Some u' ∧
             User.lastLoginAt u' = Some now ∧
             User.password u' = User.password u0 ∧
             User.username u' = User.username u0 ∧
             User.email u' = User.email u0 ∧
             User.coins u' = User.coins u0 ∧
             User.level u' = User.level u0 ∧
             User.experience u' = User.experience u0 ∧
             User.isActive u' = User.isActive u0) ∧
    (∀ j, j ≠ id → db' !! j = db !! j).
Proof.
  intros Hf Ha Hp Hc. eexists. split; [| split].
  - unfold login. rewrite Hf, Ha, Hp, Hc. reflexivity.
  - intros u0 Hu0. eexists. split.
    + rewrite lookup_alter_eq, Hu0. reflexivity.
    + repeat split.
  - intros j Hj. now rewrite lookup_alter_ne.
Qed.

(** X23.  login answers every failure with the same
    UnauthorizedException("Invalid credentials"): when no stored user has the
    email, when the user found is not active, and when the password does not
    match the stored hash (emails being unique in the store). *)
Theorem login_rejects now data (db : gmap string User.t) :
  ((∀ j u, db !! j = Some u → User.email u ≠ LoginDto.email data) →
   login compare now data db
     = inl (UnauthorizedException "Invalid credentials")) ∧
  (∀ id u,
     db !! id = Some u → User.email u = LoginDto.email data →
     unique User.email db →
     (User.isActive u = false →
      login compare now data db
        = inl (UnauthorizedException "Invalid credentials")) ∧
     (∀ h, User.password u = Some h →
           compare (LoginDto.password data) h = false →
           login compare now data db
             = inl (UnauthorizedException "Invalid credentials"))).
Proof.
  split.
  - intros Hno. unfold login.
    rewrite (proj2 (findOne_None _ db)); [reflexivity |].
    intros j u Hu. apply bool_decide_eq_false. now apply (Hno j u).
  - intros id u Hu He Huniq.
    assert (findOne (λ v, bool_decide (User.email v = LoginDto.email data)) db
            = Some (id, u)) as Hf.
    { apply findOne_only; [exact Hu | now apply bool_decide_eq_true |].
      intros j v Hv Hev. apply bool_decide_eq_true in Hev.
      apply (Huniq j id v u Hv Hu). congruence. }
    split.
    + intros Ha. unfold login. now rewrite Hf, Ha.
    + intros h Hp Hc. unfold login. rewrite Hf.
      destruct (User.isActive u); [| reflexivity]. cbn.
      now rewrite Hp, Hc.
Qed.


(** X25.  Registering and logging in fit together: when bcrypt's compare
    accepts a password against its own hash, a user created (email and
    username free and not empty, id new) with a body that does not carry
    isActive: false can log in with the same email and password; the login
    answers with that user, without the password, and stamps the stored
    user.  A body that carries isActive: false registers a user who cannot
    log in: the answer is UnauthorizedException("Invalid credentials"). *)
Theorem register_then_login id now now' data (db : gmap string User.t) :
  (∀ pw, compare pw (hash pw) = true) →
  (∀ j u, db !! j = Some u → User.email u ≠ RegisterDto.email data) →
  (∀ j u, db !! j = Some u → User.username u ≠ RegisterDto.username data) →
  RegisterDto.username data ≠ "" → RegisterDto.email data ≠ "" →
  hash (RegisterDto.password data) ≠ "" →
  db !! id = None →
  ∃ (user : User.t) (db1 : gmap string User.t),
    create hash id now data db = inr (user, db1) ∧
    (RegisterDto.isActive data ≠ Some false →
     ∃ (db2 : gmap string User.t) (stored : User.t),
       login compare now'
             (LoginDto.mk (RegisterDto.email data) (RegisterDto.password data))
             db1
         = inr (without_password user, db2) ∧
       User.password (without_password user) = None ∧
       User.lastLoginAt (without_password user)
         = RegisterDto.lastLoginAt data ∧
       db2 !! id = Some stored ∧
       User.lastLoginAt stored = Some now' ∧
       User.email stored = RegisterDto.email data) ∧
    (RegisterDto.isActive data = Some false →
     login compare now'
           (LoginDto.mk (RegisterDto.email data) (RegisterDto.password data))
           db1
       = inl (UnauthorizedException "Invalid credentials")).
Proof.
  intros Hbc He Hn Hu Hm Hh Hid.
  pose proof (create_free id now data db He Hn) as Hc.
  rewrite (required_new now data _ Hu Hm Hh), Hid in Hc. cbn in Hc.
  set (user := new_userModel now data (hash (RegisterDto.password data))) in *.
  assert (User.password user = Some (hash (RegisterDto.password data)))
    as Hpw by reflexivity.
  assert (User.email user = RegisterDto.email data) as Hem by reflexivity.
  assert (<[id := user]> db !! id = Some user) as Hin by apply lookup_insert_eq.
  assert (findOne (λ v, bool_decide (User.email v = RegisterDto.email data))
                  (<[id := user]> db) = Some (id, user)) as Hf.
  { apply findOne_only; [exact Hin | now apply bool_decide_eq_true |].
    intros j v Hv Hev. apply bool_decide_eq_true in Hev.
    destruct (decide (j = id)) as [-> | Hne]; [reflexivity |].
    rewrite lookup_insert_ne in Hv by congruence.
    exfalso. now apply (He j v Hv). }
  exists user, (<[id := user]> db). split; [exact Hc |]. split.
  - intros Hact.
    assert (User.isActive user = true) as Hact'.
    { unfold user, new_userModel. cbn.
      destruct (RegisterDto.isActive data) as [[|] |];
        [reflexivity | congruence | reflexivity]. }
    destruct (login_found now'
                (LoginDto.mk (RegisterDto.email data)
                             (RegisterDto.password data))
                (<[id := user]> db) id user
                (hash (RegisterDto.password data)) Hf Hact' Hpw (Hbc _))
      as (db2 & Hl & Hst & _).
    destruct (Hst user Hin) as (stored & Hs & E1 & _ & _ & E4 & _).
    exists db2, stored.
    rewrite E4, Hem. repeat split; auto.
  - intros Hact. unfold login. cbn [LoginDto.email LoginDto.password].
    rewrite Hf. unfold user, new_userModel. cbn. rewrite Hact. reflexivity.
Qed.

End Users.

Lemma addCoins_floor_witness :
  (∃ u' : User.t,
     UsersService.addCoins sample_hash "u1" (-50) {[ "u1" := alice ]}
       = inr (Some (UsersService.without_password u'),
              <[ "u1" := u' ]> {[ "u1" := alice ]}) ∧
     User.coins u' = 0) ∧
  UsersService.addCoins sample_hash "507f191e810c19729de860ea" (-50)
                        {[ "u1" := alice ]}
    = inr (None, {[ "u1" := alice ]}).
Proof.
  split.
  - destruct (proj1 (addCoins_floor sample_hash "u1" (-50)
                       {[ "u1" := alice ]}) alice)
      as (u' & Hr & Hc & _); [reflexivity |].
    exists u'. split; [exact Hr | rewrite Hc; reflexivity].
  - apply (proj2 (addCoins_floor sample_hash "507f191e810c19729de860ea" (-50)
                    {[ "u1" := alice ]})); reflexivity.
Defined.

Lemma addExperience_level_witness :
  (∃ u' : User.t,
     UsersService.addExperience sample_hash "u1" 250 {[ "u1" := alice ]}
       = inr (Some (UsersService.without_password u'),
              <[ "u1" := u' ]> {[ "u1" := alice ]}) ∧
     User.level u' = 3) ∧
  UsersService.addExperience sample_hash "507f191e810c19729de860ea" 250
                             {[ "u1" := alice ]}
    = inr (None, {[ "u1" := alice ]}).
Proof.
  split.
  - destruct (proj1 (addExperience_level sample_hash "u1" 250
                       {[ "u1" := alice ]}) alice)
      as (u' & Hr & He & Hl & _); [reflexivity |].
    exists u'. split; [exact Hr | rewrite Hl, He; reflexivity].
  - apply (proj2 (addExperience_level sample_hash "507f191e810c19729de860ea"
                    250 {[ "u1" := alice ]})); reflexivity.
Defined.

Lemma password_exposure_witness :
  User.password (UsersService.without_password alice) = None ∧
  ∃ id, ({[ "u1" := alice ]} : gmap string User.t) !! id = Some alice.
Proof.
  destruct (password_exposure sample_hash sample_compare)
    as (H1 & _ & _ & _ & _ & _ & H7 & _).
  split.
  - apply (H1 "u1" {[ "u1" := alice ]} {[ "u1" := alice ]}). reflexivity.
  - apply (H7 "alice@example.org" {[ "u1" := alice ]} {[ "u1" := alice ]}).
    reflexivity.
Defined.

Lemma create_checks_witness :
  UsersService.create sample_hash "u2" 5
    (RegisterDto.mk "bob" "alice@example.org" "pw"
       None None None None None None None) {[ "u1" := alice ]}
    = inl (UsersService.UnauthorizedException "Email already exists") ∧
  UsersService.create sample_hash "u2" 5
    (RegisterDto.mk "alice" "bob@example.org" "pw"
       None None None None None None None) {[ "u1" := alice ]}
    = inl (UsersService.UnauthorizedException "Username already exists") ∧
  (∃ user : User.t,
     UsersService.create sample_hash "u2" 5
       (RegisterDto.mk "bob" "bob@example.org" "pw"
          (Some 99) None (Some 5000) None None None None)
       {[ "u1" := alice ]}
       = inr (user, <[ "u2" := user ]> {[ "u1" := alice ]}) ∧
     User.level user = 99 ∧ User.experience user = 0 ∧
     User.coins user = 5000 ∧ User.isActive user = true) ∧
  UsersService.create sample_hash "u2" 5
    (RegisterDto.mk "" "bob@example.org" "pw"
       None None None None None None None) {[ "u1" := alice ]}
    = inl (UsersService.Error "User validation failed").
Proof.
  split; [| split; [| split]].
  - apply (proj1 (create_checks sample_hash "u2" 5
                    (RegisterDto.mk "bob" "alice@example.org" "pw"
                       None None None None None None None)
                    {[ "u1" := alice ]}) "u1" alice); reflexivity.
  - destruct (create_checks sample_hash "u2" 5
                (RegisterDto.mk "alice" "bob@example.org" "pw"
                   None None None None None None None)
                {[ "u1" := alice ]}) as (_ & H & _).
    apply H with (j := "u1") (u := alice); [| reflexivity | reflexivity].
    intros j u Hu. apply lookup_singleton_Some in Hu as [_ <-]. discriminate.
  - destruct (create_checks sample_hash "u2" 5
                (RegisterDto.mk "bob" "bob@example.org" "pw"
                   (Some 99) None (Some 5000) None None None None)
                {[ "u1" := alice ]}) as (_ & _ & H & _).
    destruct H as (user & Hc & _ & _ & _ & Hl & Hx & Hco & Ha & _);
      try discriminate; try reflexivity.
    + intros j u Hu. apply lookup_singleton_Some in Hu as [_ <-]. discriminate.
    + intros j u Hu. apply lookup_singleton_Some in Hu as [_ <-]. discriminate.
    + exists user. repeat split; assumption.
  - destruct (create_checks sample_hash "u2" 5
                (RegisterDto.mk "" "bob@example.org" "pw"
                   None None None None None None None)
                {[ "u1" := alice ]}) as (_ & _ & _ & H).
    apply H.
    + intros j u Hu. apply lookup_singleton_Some in Hu as [_ <-]. discriminate.
    + intros j u Hu. apply lookup_singleton_Some in Hu as [_ <-]. discriminate.
    + now left.
Defined.

Lemma login_rejects_witness :
  UsersService.login sample_compare 9
    (LoginDto.mk "alice@example.org" "guess") {[ "u1" := alice ]}
    = inl (UsersService.UnauthorizedException "Invalid credentials").
Proof.
  apply (proj2 (login_rejects sample_compare 9
                  (LoginDto.mk "alice@example.org" "guess")
                  {[ "u1" := alice ]}) "u1" alice)
    with (h := sample_hash "secret"); try reflexivity.
  intros i j u v Hi Hj _.
  apply lookup_singleton_Some in Hi as [<- _].
  apply lookup_singleton_Some in Hj as [<- _]. reflexivity.
Defined.


Lemma register_then_login_witness :
  ∃ (user : User.t) (db1 db2 : gmap string User.t) (stored : User.t),
    UsersService.create sample_hash "u2" 5
      (RegisterDto.mk "bob" "bob@example.org" "pw"
         None None None None None None None) {[ "u1" := alice ]}
      = inr (user, db1) ∧
    UsersService.login sample_compare 9
      (LoginDto.mk "bob@example.org" "pw") db1
      = inr (UsersService.without_password user, db2) ∧
    User.lastLoginAt (UsersService.without_password user) = None ∧
    db2 !! "u2" = Some stored ∧
    User.lastLoginAt stored = Some 9 ∧
    User.email stored = "bob@example.org".
Proof.
  destruct (register_then_login sample_hash sample_compare "u2" 5 9
              (RegisterDto.mk "bob" "bob@example.org" "pw"
                 None None None None None None None) {[ "u1" := alice ]})
    as (user & db1 & Hc & Hin & _); try discriminate; try reflexivity.
  - intros pw. unfold sample_compare. now apply bool_decide_eq_true.
  - intros j u Hu. apply lookup_singleton_Some in Hu as [_ <-]. discriminate.
  - intros j u Hu. apply lookup_singleton_Some in Hu as [_ <-]. discriminate.
  - destruct Hin as (db2 & stored & Hl & _ & Ht & Hs & Hst & He);
      [discriminate |].
    exists user, db1, db2, stored. repeat split; assumption.
Defined.

(** * Properties of the logs module *)

Section Logs.

Import LogsService.

Lemma find_sorted_spec filter (db : gmap string Log.t) :
  StronglySorted newer (find_sorted filter db) ∧
  find_sorted filter db ≡ₚ List.filter filter (map_to_list db).*2 ∧
  ∀ l, l ∈ find_sorted filter db ↔
       (∃ id, db !! id = Some l) ∧ filter l = true.
Proof.
  unfold find_sorted. split; [| split].
  - apply StronglySorted_merge_sort; apply _.
  - apply merge_sort_Permutation.
  - intros l. rewrite merge_sort_Permutation.
    rewrite list_elem_of_In, filter_In, <- list_elem_of_In, list_elem_of_fmap.
    split.
    + intros [([id l'] & -> & Hin) Hf]. split; [| exact Hf].
      exists id. now apply elem_of_map_to_list.
    + intros [[id Hid] Hf]. split; [| exact Hf].
      exists (id, l). split; [reflexivity | now apply elem_of_map_to_list].
Qed.

(** X26.  findAll and findByUserId list newest first: in the answer no log
    comes before a newer one.  findAll holds exactly the stored logs, and
    findByUserId exactly those of the user, so every log it lists is also in
    findAll. *)
Theorem logs_newest_first userId (db : gmap string Log.t) :
  StronglySorted newer (findAll db) ∧
  StronglySorted newer (findByUserId userId db) ∧
  (∀ l, l ∈ findAll db ↔ ∃ id, db !! id = Some l) ∧
  (∀ l, l ∈ findByUserId userId db ↔
        (∃ id, db !! id = Some l) ∧ Log.userId l = userId) ∧
  (∀ l, l ∈ findByUserId userId db → l ∈ findAll db).
Proof.
  unfold findAll, findByUserId.
  destruct (find_sorted_spec (λ _, true) db) as (Sa & _ & Ma).
  destruct (find_sorted_spec (λ l, bool_decide (Log.userId l = userId)) db)
    as (Su & _ & Mu).
  split; [exact Sa |]. split; [exact Su |].
  split; [| split].
  - intros l. rewrite Ma. tauto.
  - intros l. rewrite Mu, bool_decide_eq_true. tauto.
  - intros l. rewrite Ma, Mu. tauto.
Qed.

(** X27.  findByDateRange holds exactly the stored logs created from
    startDate to endDate, both ends included, newest first; with the start
    after the end it is empty. *)
Theorem findByDateRange_inclusive startDate endDate (db : gmap string Log.t) :
  StronglySorted newer (findByDateRange startDate endDate db) ∧
  (∀ l, l ∈ findByDateRange startDate endDate db ↔
        (∃ id, db !! id = Some l) ∧
        startDate ≤ Log.createdAt l ≤ endDate) ∧
  (endDate < startDate → findByDateRange startDate endDate db = []).
Proof.
  unfold findByDateRange.
  destruct (find_sorted_spec
              (λ l, bool_decide (startDate ≤ Log.createdAt l)
                    && bool_decide (Log.createdAt l ≤ endDate)) db)
    as (Hs & _ & Hm).
  split; [exact Hs |].
  assert (∀ l, l ∈ find_sorted
                 (λ l, bool_decide (startDate ≤ Log.createdAt l)
                       && bool_decide (Log.createdAt l ≤ endDate)) db ↔
               (∃ id, db !! id = Some l) ∧
               startDate ≤ Log.createdAt l ≤ endDate) as Hm'.
  { intros l. rewrite Hm, andb_true_iff, !bool_decide_eq_true. tauto. }
  split; [exact Hm' |].
  intros Hlt. apply elem_of_nil_inv. intros l Hl.
  apply Hm' in Hl as [_ Hl]. lia.
Qed.

End Logs.

Lemma findByDateRange_inclusive_witness :
  LogsService.findByDateRange 10 5 {[ "l1" := log1 ]} = [].
Proof.
  apply (findByDateRange_inclusive 10 5 {[ "l1" := log1 ]}). lia.
Defined.

Lemma logs_newest_first_witness :
  log1 ∈ LogsService.findAll {[ "l1" := log1 ]}.
Proof.
  destruct (logs_newest_first "u1" {[ "l1" := log1 ]})
    as (_ & _ & _ & Hu & Hsub).
  apply Hsub, Hu. split; [| reflexivity].
  exists "l1". reflexivity.
Defined.
